(** * The playground's streaming chat-completion handler

    A shallow embedding of [chatCompletionHandler] of
    [src/lib/components/playground/Chat.svelte], with the component state it
    reads and writes, the collaborators it calls and the Cancel click that may
    run while it is suspended at an [await]. *)

From Stdlib Require Import Ascii String.
From stdpp Require Import base option list strings.

(** ** JavaScript strings *)

(** The one-character string ['\n']. *)
Definition newline : string := String "010"%char EmptyString.

(** [value.split('\n')]: the pieces between newlines; never an empty list. *)
Fixpoint split_newline (value : string) : list string :=
  match value with
  | EmptyString => [EmptyString]
  | String c rest =>
      if Ascii.eqb c "010"%char then EmptyString :: split_newline rest
      else match split_newline rest with
           | [] => [String c EmptyString]
           | piece :: pieces => String c piece :: pieces
           end
  end.

Fixpoint strip_prefix (p s : string) : option string :=
  match p with
  | EmptyString => Some s
  | String a p' =>
      match s with
      | EmptyString => None
      | String b s' => if Ascii.eqb a b then strip_prefix p' s' else None
      end
  end.

(** [line.replace(/^data: /, '')]. *)
Definition replace_data_prefix (line : string) : string :=
  default line (strip_prefix "data: " line).

(** ** JavaScript values read out of an event *)

(** What [JSON.parse] returns.  A number is carried by the text that
    [Number::toString] gives for it, which is all the handler can observe of
    it; an object by its own properties, each key once. *)
#[warnings="-register-all"]
Inductive json : Type :=
  | JNull
  | JBool (b : bool)
  | JNum (repr : string)
  | JStr (s : string)
  | JArr (items : list json)
  | JObj (fields : list (string * json)).

(** A value that may be [undefined]. *)
Definition jsval : Type := option json.

(** The errors of the language, and the exceptions of the platform by name
    (["AbortError"], ["NetworkError"], ...). *)
Inductive Error : Type := SyntaxError | TypeError | DOMException (name : string).

(** ECMAScript completions: an expression yields a value or throws.  Code
    that awaits a promise which is never settled does neither: it stays
    [Pending], and nothing behind the [await] runs. *)
Inductive Completion (A : Type) : Type :=
  | Normal (a : A)
  | Throw (e : Error)
  | Pending.
Arguments Normal {A} a.
Arguments Throw {A} e.
Arguments Pending {A}.

Fixpoint assoc (key : string) (fields : list (string * json)) : jsval :=
  match fields with
  | [] => None
  | (k, v) :: rest => if decide (k = key) then Some v else assoc key rest
  end.

(** [v.key] and [v[0]] for the four property names the handler reads
    ([choices], [0], [delta], [content]), none of which a prototype defines:
    [undefined] and [null] throw, an object answers from its own properties, an
    array and a string answer index 0 only, other primitives answer
    [undefined]. *)
Definition get_prop (v : jsval) (key : string) : Completion jsval :=
  match v with
  | None | Some JNull => Throw TypeError
  | Some (JObj fields) => Normal (assoc key fields)
  | Some (JArr items) => Normal (if decide (key = "0") then head items else None)
  | Some (JStr s) =>
      Normal (if decide (key = "0")
              then match s with
                   | EmptyString => None
                   | String c _ => Some (JStr (String c EmptyString))
                   end
              else None)
  | Some (JBool _) | Some (JNum _) => Normal None
  end.

Definition and_then {A B} (c : Completion A) (k : A → Completion B) : Completion B :=
  match c with
  | Normal a => k a
  | Throw e => Throw e
  | Pending => Pending
  end.

(** [data.choices[0].delta.content]. *)
Definition delta_content (data : json) : Completion jsval :=
  and_then (get_prop (Some data) "choices") (λ choices,
  and_then (get_prop choices "0") (λ choice,
  and_then (get_prop choice "delta") (λ delta,
  get_prop delta "content"))).

(** The completions of a list of expressions evaluated from left to right. *)
Fixpoint sequence {A} (cs : list (Completion A)) : Completion (list A) :=
  match cs with
  | [] => Normal []
  | c :: rest =>
      and_then c (λ a, and_then (sequence rest) (λ others, Normal (a :: others)))
  end.

(** The string that [ToPrimitive] makes of a parsed value, which is what
    [==] compares and [+] concatenates.  A parsed object holds no function: an
    own property [toString], whatever its value, hides
    [Object.prototype.toString] and is not callable, and
    [Object.prototype.valueOf] returns the object itself, so no method yields
    a primitive and the conversion throws a TypeError; without that property
    the object converts to ["[object Object]"], also when it has an own
    [valueOf].  An array converts through [Array.prototype.join], which
    converts each item the same way, [null] items giving the empty string. *)
Fixpoint js_to_string (v : json) : Completion string :=
  match v with
  | JNull => Normal "null"
  | JBool b => Normal (if b then "true" else "false")
  | JNum repr => Normal repr
  | JStr s => Normal s
  | JArr items =>
      and_then
        (sequence
           (map (λ item, match item with
                         | JNull => Normal EmptyString
                         | _ => js_to_string item
                         end) items))
        (λ texts, Normal (String.concat "," texts))
  | JObj fields =>
      match assoc "toString" fields with
      | Some _ => Throw TypeError
      | None => Normal "[object Object]"
      end
  end.

(** [v == '\n']: a string compares as it is, a number or a boolean as a
    number against [ToNumber('\n')], which is 0, an array or object through
    its conversion to a string, which may throw; [null] and [undefined] equal
    no string. *)
Definition loose_eq_newline (v : jsval) : Completion bool :=
  match v with
  | None | Some JNull => Normal false
  | Some (JStr s) => Normal (bool_decide (s = newline))
  | Some (JNum repr) => Normal (bool_decide (repr = "0"))
  | Some (JBool b) => Normal (negb b)
  | Some (JArr items) =>
      and_then (js_to_string (JArr items)) (λ text, Normal (bool_decide (text = newline)))
  | Some (JObj fields) =>
      and_then (js_to_string (JObj fields)) (λ text, Normal (bool_decide (text = newline)))
  end.

(** [v ?? ''], as the string that [+=] appends, if the conversion does not
    throw. *)
Definition fragment_text (v : jsval) : Completion string :=
  match v with
  | None | Some JNull => Normal EmptyString
  | Some w => js_to_string w
  end.

(** ** Conversation, request and response *)

Record Turn : Type := { role : string; content : string }.

Module Model.
(** An entry of the [$models] store. *)
Record t : Type := { id : string; name : string }.
End Model.

Module Request.
(** The body handed to [chatCompletion]. *)
Record t : Type := { model : string; stream : bool; messages : list Turn }.
End Request.

(** The reader is the one of
    [res.body.pipeThrough(new TextDecoderStream()).pipeThrough(splitStream('\n'))].
    How it ends once it has yielded its values: [reader.read()] reports
    [done], or its promise is rejected, or it is never settled. *)
Inductive Ending : Type :=
  | Closes
  | Rejects (e : Error)
  | Stalls.

(** [res]: its [ok] flag, the values its reader yields and how the reader
    ends after them. *)
Record Response : Type := { ok : bool; body : list string; ending : Ending }.

(** The places where the handler is suspended. *)
Inductive AwaitPoint : Type :=
  | AwRequest                 (* await chatCompletion(...) *)
  | AwMount                   (* await tick(), before the loop *)
  | AwRead (n : nat)          (* await reader.read(), read number n *)
  | AwAppend (n i : nat).     (* await tick(), after line i of chunk n was appended *)

Inductive LogItem : Type :=
  | LogText (text : string)
  | LogData (data : json)
  | LogError (e : Error).

(** Calls into the collaborators, in the order they are made. *)
Inductive Event : Type :=
  | EToastError (text : string)
  | EChatCompletion (token : string) (request : Request.t) (url : string)
  | ERender (snapshot : list Turn)    (* messages = messages *)
  | EResize                           (* textareaElement.style.height = ... *)
  | ERead                             (* reader.read() *)
  | EParse (text : string)            (* JSON.parse(text) *)
  | ELog (item : LogItem)             (* console.log(...) *)
  | EAbort (reason : string)          (* controller.abort(reason) *)
  | EScroll.                          (* scrollToBottom() *)

(** What the page and the runtime supply to one invocation. *)
Record Env : Type := {
  models : list Model.t;
  token : string;
  WEBUI_BASE_URL : string;
  i18n_t : string → string;
  JSON_parse : string → option json;
  response : option Response;
  cancel_clicked : AwaitPoint → bool
}.

(** The component variables the handler reads and writes. *)
Record State : Type := {
  selectedModelId : string;
  system : string;
  messages : list Turn;
  stopResponseFlag : bool
}.

Definition set_selectedModelId (v : string) (s : State) : State :=
  {| selectedModelId := v; system := system s; messages := messages s;
     stopResponseFlag := stopResponseFlag s |}.

Definition set_messages (v : list Turn) (s : State) : State :=
  {| selectedModelId := selectedModelId s; system := system s; messages := v;
     stopResponseFlag := stopResponseFlag s |}.

Definition set_stopResponseFlag (v : bool) (s : State) : State :=
  {| selectedModelId := selectedModelId s; system := system s; messages := messages s;
     stopResponseFlag := v |}.

(** ** The monad of handler code: state, emitted events, exceptions *)

Record Outcome (A : Type) : Type := {
  final : State;
  events : list Event;
  completion : Completion A
}.
Arguments final {A} o.
Arguments events {A} o.
Arguments completion {A} o.

Definition Js (A : Type) : Type := State → Outcome A.

Definition ret {A} (a : A) : Js A :=
  λ s, {| final := s; events := []; completion := Normal a |}.

Definition throw {A} (e : Error) : Js A :=
  λ s, {| final := s; events := []; completion := Throw e |}.

(** Waiting for a promise that is never settled. *)
Definition pend {A} : Js A :=
  λ s, {| final := s; events := []; completion := Pending |}.

Definition bind {A B} (m : Js A) (k : A → Js B) : Js B :=
  λ s, let o := m s in
       match completion o with
       | Normal a =>
           let o' := k a (final o) in
           {| final := final o'; events := events o ++ events o';
              completion := completion o' |}
       | Throw e => {| final := final o; events := events o; completion := Throw e |}
       | Pending => {| final := final o; events := events o; completion := Pending |}
       end.

Definition try_catch (block : Js unit) (handler : Error → Js unit) : Js unit :=
  λ s, let o := block s in
       match completion o with
       | Normal _ | Pending => o
       | Throw e =>
           let o' := handler e (final o) in
           {| final := final o'; events := events o ++ events o';
              completion := completion o' |}
       end.

Definition emit (e : Event) : Js unit :=
  λ s, {| final := s; events := [e]; completion := Normal tt |}.

Definition gets {A} (f : State → A) : Js A := λ s, ret (f s) s.

Definition modify (f : State → State) : Js unit :=
  λ s, {| final := f s; events := []; completion := Normal tt |}.

Definition lift {A} (c : Completion A) : Js A :=
  match c with
  | Normal a => ret a
  | Throw e => throw e
  | Pending => pend
  end.

Declare Scope js_scope.
Delimit Scope js_scope with js.
Notation "x <- m ;; k" := (bind m (λ x, k))
  (at level 100, m at next level, right associativity) : js_scope.
Notation "m ;; k" := (bind m (λ _, k))
  (at level 100, right associativity) : js_scope.
Local Open Scope js_scope.

(** ** The component *)

(** [stopResponse], the Cancel button's click handler. *)
Definition stopResponse : Js unit :=
  modify (set_stopResponseFlag true) ;;
  emit (ELog (LogText "stopResponse")).

(** An [await]: control returns to the event loop, where a Cancel click, if
    one is pending, runs [stopResponse]. *)
Definition await (env : Env) (p : AwaitPoint) : Js unit :=
  if cancel_clicked env p then stopResponse else ret tt.

(** [messages = messages]: the assignment that makes Svelte render again. *)
Definition render : Js unit :=
  ms <- gets messages ;; emit (ERender ms).

Definition scrollToBottom : Js unit := emit EScroll.

(** [responseMessage] is the last element of [messages], from the moment it
    is chosen or pushed; nothing in the handler moves it. *)
Definition responseMessage_content (ms : list Turn) : string :=
  match last ms with
  | Some t => content t
  | None => EmptyString
  end.

Fixpoint update_last (f : Turn → Turn) (ms : list Turn) : list Turn :=
  match ms with
  | [] => []
  | [t] => [f t]
  | t :: rest => t :: update_last f rest
  end.

(** [responseMessage.content += text]. *)
Definition append_content (text : string) (t : Turn) : Turn :=
  {| role := role t; content := content t +:+ text |}.

Definition append_to_response (text : string) (s : State) : State :=
  set_messages (update_last (append_content text) (messages s)) s.

Definition sentinel : string := "data: [DONE]".

Definition abort_reason : string := "User: Stop Response".

(** The body of [for (const line of lines)].  The textarea of the response
    turn is taken to be mounted, so the two height assignments do not throw. *)
Definition process_line (env : Env) (n i : nat) (line : string) : Js unit :=
  if decide (line = EmptyString) then ret tt
  else
    emit (ELog (LogText line)) ;;
    if decide (line = sentinel) then render
    else
      let text := replace_data_prefix line in
      emit (EParse text) ;;
      data <- match JSON_parse env text with
              | Some d => ret d
              | None => throw SyntaxError
              end ;;
      emit (ELog (LogData data)) ;;
      c <- gets (λ s, responseMessage_content (messages s)) ;;
      skip <- (if decide (c = EmptyString)
               then v <- lift (delta_content data) ;; lift (loose_eq_newline v)
               else ret false) ;;
      if (skip : bool) then ret tt
      else
        emit EResize ;;
        v <- lift (delta_content data) ;;
        text <- lift (fragment_text v) ;;
        modify (append_to_response text) ;;
        render ;;
        emit EResize ;;
        await env (AwAppend n i).

Fixpoint for_lines (env : Env) (n i : nat) (lines : list string) : Js unit :=
  match lines with
  | [] => ret tt
  | line :: rest => process_line env n i line ;; for_lines env n (S i) rest
  end.

(** The [try { ... } catch (error) { console.log(error) }] around one chunk. *)
Definition process_chunk (env : Env) (n : nat) (value : string) : Js unit :=
  try_catch (for_lines env n 0 (split_newline value))
            (λ error, emit (ELog (LogError error))).

(** The [while (true)] loop over the reader; [pending] is what the reader has
    yet to yield and [ending] what it does after that.  The [await] of the
    read is outside the [try]: a rejected read leaves the loop and the handler
    with its error, and a read that is never settled leaves them waiting. *)
Fixpoint read_loop (env : Env) (n : nat) (pending : list string) (ending : Ending)
  : Js unit :=
  emit ERead ;;
  await env (AwRead n) ;;
  match pending with
  | [] =>
      match ending with
      | Closes =>
          stop <- gets stopResponseFlag ;;
          if (stop : bool) then emit (EAbort abort_reason) else ret tt
      | Rejects e => throw e
      | Stalls => pend
      end
  | value :: rest =>
      stop <- gets stopResponseFlag ;;
      if (stop : bool) then emit (EAbort abort_reason)
      else
        process_chunk env n value ;;
        scrollToBottom ;;
        read_loop env (S n) rest ending
  end.

(** A string is truthy unless it is empty; an object always is. *)
Definition system_turn (sys : string) : option Turn :=
  if decide (sys = EmptyString) then None
  else Some {| role := "system"; content := sys |}.

(** [[system ? {...} : undefined, ...messages].filter((message) => message)] *)
Definition request_messages (sys : string) (ms : list Turn) : list Turn :=
  omap (λ entry : option Turn, entry) (system_turn sys :: (Some <$> ms)).

Definition last_is_assistant (ms : list Turn) : bool :=
  bool_decide (role <$> last ms = Some "assistant").

(** Choosing the turn to stream into: the last one if it is an assistant
    turn, a new empty one otherwise. *)
Definition choose_responseMessage : Js unit :=
  ms <- gets messages ;;
  if last_is_assistant ms then ret tt
  else
    modify (λ s, set_messages
                   (messages s ++ [ {| role := "assistant"; content := EmptyString |} ]) s) ;;
    render.

Definition chatCompletionHandler (env : Env) : Js unit :=
  sel <- gets selectedModelId ;;
  if decide (sel = EmptyString) then
    emit (EToastError (i18n_t env "Please select a model."))
  else
    match List.find (λ m, bool_decide (Model.id m = sel)) (models env) with
    | None => modify (set_selectedModelId EmptyString)
    | Some model =>
        sys <- gets system ;;
        ms <- gets messages ;;
        emit (EChatCompletion (token env)
                {| Request.model := Model.id model;
                   Request.stream := true;
                   Request.messages := request_messages sys ms |}
                (WEBUI_BASE_URL env +:+ "/api")) ;;
        await env AwRequest ;;
        choose_responseMessage ;;
        await env AwMount ;;
        match response env with
        | Some res => if ok res then read_loop env 0 (body res) (ending res) else ret tt
        | None => ret tt
        end
    end.

(** ** Reading an outcome *)

Definition toasts (evs : list Event) : list string :=
  omap (λ e, match e with EToastError text => Some text | _ => None end) evs.

Definition requests (evs : list Event) : list (string * Request.t * string) :=
  omap (λ e, match e with
             | EChatCompletion tok req url => Some (tok, req, url)
             | _ => None
             end) evs.

Definition reads (evs : list Event) : nat :=
  length (omap (λ e, match e with ERead => Some tt | _ => None end) evs).

Definition parses (evs : list Event) : list string :=
  omap (λ e, match e with EParse text => Some text | _ => None end) evs.

Definition logged_errors (evs : list Event) : list Error :=
  omap (λ e, match e with ELog (LogError err) => Some err | _ => None end) evs.

Definition aborts (evs : list Event) : list string :=
  omap (λ e, match e with EAbort reason => Some reason | _ => None end) evs.

Definition renders (evs : list Event) : list (list Turn) :=
  omap (λ e, match e with ERender snapshot => Some snapshot | _ => None end) evs.

(** ** Sample events and a sample page *)

Definition dquote : string := String "034"%char EmptyString.

Definition quoted (s : string) : string := dquote +:+ s +:+ dquote.

(** The line [data: {"choices":[{"delta":{"content":"<frag>"}}]}], for a
    fragment that needs no escaping. *)
Definition event_text (frag : string) : string :=
  "{" +:+ quoted "choices" +:+ ":[{" +:+ quoted "delta" +:+ ":{"
      +:+ quoted "content" +:+ ":" +:+ quoted frag +:+ "}}]}".

Definition event_line (frag : string) : string := "data: " +:+ event_text frag.

Definition event_json (content : json) : json :=
  JObj [("choices", JArr [JObj [("delta", JObj [("content", content)])]])].

(** The line whose fragment is a single newline: in JSON text the newline is
    written as the escape backslash-n. *)
Definition newline_event_line : string := event_line "\n".

(** [JSON.parse] on the texts the samples use: three events, and a syntax
    error on everything else, among which the text [oops]. *)
Definition sample_parse (text : string) : option json :=
  if decide (text = event_text "Hello") then Some (event_json (JStr "Hello"))
  else if decide (text = event_text "World") then Some (event_json (JStr "World"))
  else if decide (text = event_text "\n") then Some (event_json (JStr newline))
  else None.

Definition sample_env (res : option Response) (clicked : AwaitPoint → bool) : Env :=
  {| models := [ {| Model.id := "llama3"; Model.name := "Llama 3" |} ];
     token := "secret";
     WEBUI_BASE_URL := "http://localhost:8080";
     i18n_t := λ key, key;
     JSON_parse := sample_parse;
     response := res;
     cancel_clicked := clicked |}.

Definition never : AwaitPoint → bool := λ _, false.

(** A response that is ok and whose reader yields [chunks] and then reports
    [done]. *)
Definition streaming (chunks : list string) : option Response :=
  Some {| ok := true; body := chunks; ending := Closes |}.

Definition sample_state (ms : list Turn) : State :=
  {| selectedModelId := "llama3"; system := "Be brief.";
     messages := ms; stopResponseFlag := false |}.

Definition user_says (text : string) : Turn := {| role := "user"; content := text |}.

(** A state whose selection names no known model, one with no selection,
    and a page that answers with a failure status. *)
Definition ghost_state : State :=
  {| selectedModelId := "ghost"; system := EmptyString;
     messages := [user_says "Hi"]; stopResponseFlag := false |}.

Definition unselected_state : State :=
  {| selectedModelId := EmptyString; system := EmptyString;
     messages := [user_says "Hi"]; stopResponseFlag := false |}.

Definition rejected : option Response :=
  Some {| ok := false; body := []; ending := Closes |}.

(** Values of a reader that is not behind [splitStream]: a malformed line
    in front of a valid one in one value, after a value of its own. *)
Definition oops_then_world : string := "oops" +:+ newline +:+ event_line "World".

Definition hello_then_broken_stream : list string := [event_line "Hello"; oops_then_world].

(** The user presses Cancel during the ticks of the first chunk and again
    while the second read is awaited. *)
Definition cancel_after_first : AwaitPoint → bool :=
  λ p, match p with
       | AwRead 1 => true
       | AwAppend 0 _ => true
       | _ => false
       end.

Definition hello_world_stream : list string := [event_line "Hello"; event_line "World"].

(** ** The vocabulary of the properties *)

(** How [process_line] fares on a line, whatever the state: skipped as
    empty, recognised as the terminate sentinel, thrown out of by
    [JSON.parse], by the property reads or by the conversion of the delta
    content to a string, or carrying a delta content that converts.  The
    conversion is made by [==] when the response turn is empty and by [+=]
    when it is not, and throws in the one case when it throws in the other. *)
Inductive LineKind : Type :=
  | Blank
  | Terminate
  | Malformed (e : Error)
  | Delta (v : jsval).

Definition classify (env : Env) (line : string) : LineKind :=
  if decide (line = EmptyString) then Blank
  else if decide (line = sentinel) then Terminate
  else match JSON_parse env (replace_data_prefix line) with
       | None => Malformed SyntaxError
       | Some data =>
           match delta_content data with
           | Normal v =>
               match fragment_text v with
               | Normal _ => Delta v
               | Throw e => Malformed e
               | Pending => Blank       (* no conversion waits *)
               end
           | Throw e => Malformed e
           | Pending => Blank           (* no property read waits *)
           end
       end.

(** The fragment of a delta content that converts. *)
Definition fragment (v : jsval) : string :=
  match fragment_text v with
  | Normal text => text
  | _ => EmptyString
  end.

(** The leading-newline rule. *)
Definition elided (c : string) (v : jsval) : bool :=
  bool_decide (c = EmptyString)
  && match loose_eq_newline v with
     | Normal skip => skip
     | _ => false
     end.

Definition apply_delta (c : string) (v : jsval) : string :=
  if elided c v then c else c +:+ fragment v.

(** The fragments that are appended, in order, when the deltas arrive at a
    turn whose content is [c]. *)
Fixpoint retained (c : string) (deltas : list jsval) : list string :=
  match deltas with
  | [] => []
  | v :: rest =>
      if elided c v then retained c rest
      else fragment v :: retained (c +:+ fragment v) rest
  end.

(** Fragments put one after the other. *)
Definition concatenation (fragments : list string) : string :=
  foldr String.append EmptyString fragments.

(** Modelled from the spec: the end of the body in [splitStream], below.  A
    text that ends in a newline leaves nothing behind its last line, and no
    value is yielded for that. *)
Fixpoint drop_empty_tail (pieces : list string) : list string :=
  match pieces with
  | [] => []
  | [piece] => if decide (piece = EmptyString) then [] else [piece]
  | piece :: rest => piece :: drop_empty_tail rest
  end.

(** Modelled from the spec: [splitStream('\n')] of [$lib/utils], the
    transform that stands between the decoded response body and the reader
    of the handler.  The spec has the body "decoded as text and split into
    newline-delimited chunks": whatever the pieces in which the transport
    delivers the text, the reader yields the pieces of the whole text between
    its newlines, one value each, and no empty value for the end of a text
    that ends in a newline. *)
Definition splitStream (delivered : list string) : list string :=
  drop_empty_tail (split_newline (concatenation delivered)).


(** In the second the malformed line and the event for "World" behind it
    are delivered in one piece. *)
Definition hello_oops_world : list string :=
  [event_line "Hello" +:+ newline; "oops" +:+ newline +:+ event_line "World"].

(** The delta contents of all the valid event lines. *)
Fixpoint valid_deltas (env : Env) (lines : list string) : list jsval :=
  match lines with
  | [] => []
  | line :: rest =>
      match classify env line with
      | Delta v => v :: valid_deltas env rest
      | _ => valid_deltas env rest
      end
  end.

(** The delta contents of the valid event lines that come before the first
    malformed line. *)
Fixpoint leading_deltas (env : Env) (lines : list string) : list jsval :=
  match lines with
  | [] => []
  | line :: rest =>
      match classify env line with
      | Delta v => v :: leading_deltas env rest
      | Malformed _ => []
      | _ => leading_deltas env rest
      end
  end.

Fixpoint stream_deltas (of_lines : list string → list jsval) (chunks : list string)
  : list jsval :=
  match chunks with
  | [] => []
  | chunk :: rest => of_lines (split_newline chunk) ++ stream_deltas of_lines rest
  end.

(** The first error of a chunk's lines, which is the one its [catch] logs. *)
Fixpoint first_error (env : Env) (lines : list string) : option Error :=
  match lines with
  | [] => None
  | line :: rest =>
      match classify env line with
      | Malformed e => Some e
      | _ => first_error env rest
      end
  end.

(** The content of the response turn after a run of lines, and of chunks. *)
Fixpoint lines_content (env : Env) (c : string) (lines : list string) : string :=
  match lines with
  | [] => c
  | line :: rest =>
      match classify env line with
      | Malformed _ => c
      | Delta v => lines_content env (apply_delta c v) rest
      | _ => lines_content env c rest
      end
  end.

Fixpoint chunks_content (env : Env) (c : string) (chunks : list string) : string :=
  match chunks with
  | [] => c
  | chunk :: rest =>
      chunks_content env (lines_content env c (split_newline chunk)) rest
  end.

Definition with_content (c : string) (ms : list Turn) : list Turn :=
  update_last (λ t, {| role := role t; content := c |}) ms.

(** The conversation once the response turn is chosen, and the content that
    turn starts with. *)
Definition chosen (ms : list Turn) : list Turn :=
  if last_is_assistant ms then ms
  else ms ++ [ {| role := "assistant"; content := EmptyString |} ].

Definition seed (ms : list Turn) : string := responseMessage_content (chosen ms).

(** The selected model is one of the known ones. *)
Definition resolved (env : Env) (s : State) : Prop :=
  selectedModelId s ≠ EmptyString ∧
  ∃ m, m ∈ models env ∧ Model.id m = selectedModelId s.

(** The user does not press Cancel during the session. *)
Definition quiet (env : Env) : Prop := ∀ p, cancel_clicked env p = false.

(** The reader of a response that is ok yields its values and then reports
    [done]: no read is rejected and none is left unsettled. *)
Definition reader_closes (env : Env) : Prop :=
  ∀ res, response env = Some res → ok res = true → ending res = Closes.

Definition final_content (env : Env) (s : State) : string :=
  responseMessage_content (messages (final (chatCompletionHandler env s))).

(** One snapshot of the conversation against a later one: the same turns,
    but for the last one, whose content has grown at its end. *)
Definition grows (earlier later : list Turn) : Prop :=
  ∃ others t u,
    earlier = others ++ [t] ∧
    later = others ++ [ {| role := role t; content := content t +:+ u |} ].

(** The same, without the promise that there is a last turn: [later] is
    [earlier] with [u] appended to its last turn. *)
Definition extends (earlier later : list Turn) : Prop :=
  ∃ u, later = update_last (append_content u) earlier.

(** Successive snapshots, each one extending the one before. *)
Fixpoint ascending (m : list Turn) (timeline : list (list Turn)) : Prop :=
  match timeline with
  | [] => True
  | m' :: rest => extends m m' ∧ ascending m' rest
  end.

(** The handler past its precondition, for the model that was found. *)
Definition issue_and_stream (env : Env) (model : Model.t) : Js unit :=
  sys <- gets system ;;
  ms <- gets messages ;;
  emit (EChatCompletion (token env)
          {| Request.model := Model.id model;
             Request.stream := true;
             Request.messages := request_messages sys ms |}
          (WEBUI_BASE_URL env +:+ "/api")) ;;
  await env AwRequest ;;
  choose_responseMessage ;;
  await env AwMount ;;
  match response env with
  | Some res => if ok res then read_loop env 0 (body res) (ending res) else ret tt
  | None => ret tt
  end.

(** The same page, with another response body. *)
Definition with_body (chunks : list string) (env : Env) : Env :=
  {| models := models env; token := token env; WEBUI_BASE_URL := WEBUI_BASE_URL env;
     i18n_t := i18n_t env; JSON_parse := JSON_parse env;
     response := streaming chunks; cancel_clicked := cancel_clicked env |}.

(** ** The form around the handler *)

Module Page.
(** The handler's variables with those of the form: the role and the text of
    the turn being typed, and the flag that swaps the Add and Run buttons for
    the Cancel button. *)
Record t : Type := {
  state : State;
  role : string;
  message : string;
  loading : bool
}.
End Page.

Definition set_state (v : State) (p : Page.t) : Page.t :=
  {| Page.state := v; Page.role := Page.role p; Page.message := Page.message p;
     Page.loading := Page.loading p |}.

Definition set_role (v : string) (p : Page.t) : Page.t :=
  {| Page.state := Page.state p; Page.role := v; Page.message := Page.message p;
     Page.loading := Page.loading p |}.

Definition set_message (v : string) (p : Page.t) : Page.t :=
  {| Page.state := Page.state p; Page.role := Page.role p; Page.message := v;
     Page.loading := Page.loading p |}.

Definition set_loading (v : bool) (p : Page.t) : Page.t :=
  {| Page.state := Page.state p; Page.role := Page.role p; Page.message := Page.message p;
     Page.loading := v |}.

Record PageOutcome (A : Type) : Type := {
  page : Page.t;
  emitted : list Event;
  result : Completion A
}.
Arguments page {A} _.
Arguments emitted {A} _.
Arguments result {A} _.

(** Code of the form: as [Js], over the larger state. *)
Definition Ui (A : Type) : Type := Page.t → PageOutcome A.

Definition ui_ret {A} (a : A) : Ui A :=
  λ p, {| page := p; emitted := []; result := Normal a |}.

Definition ui_bind {A B} (m : Ui A) (k : A → Ui B) : Ui B :=
  λ p, let o := m p in
       match result o with
       | Normal a =>
           let o' := k a (page o) in
           {| page := page o'; emitted := emitted o ++ emitted o'; result := result o' |}
       | Throw e => {| page := page o; emitted := emitted o; result := Throw e |}
       | Pending => {| page := page o; emitted := emitted o; result := Pending |}
       end.

Definition ui_gets {A} (f : Page.t → A) : Ui A := λ p, ui_ret (f p) p.

Definition ui_modify (f : Page.t → Page.t) : Ui unit :=
  λ p, {| page := f p; emitted := []; result := Normal tt |}.

(** Handler code run on the handler's part of the page. *)
Definition on_state {A} (m : Js A) : Ui A :=
  λ p, let o := m (Page.state p) in
       {| page := set_state (final o) p; emitted := events o; result := completion o |}.

Declare Scope ui_scope.
Delimit Scope ui_scope with ui.
Notation "x <- m ;; k" := (ui_bind m (λ x, k))
  (at level 100, m at next level, right associativity) : ui_scope.
Notation "m ;; k" := (ui_bind m (λ _, k))
  (at level 100, right associativity) : ui_scope.

(** [messages.push(turn)] *)
Definition push_turn (turn : Turn) (s : State) : State :=
  set_messages (messages s ++ [turn]) s.

(** [addHandler].  The Cancel button is rendered only while [loading] is set
    and [addHandler] runs while it is not, so no Cancel click can run at its
    [await tick()]. *)
Definition addHandler : Ui unit :=
  (msg <- ui_gets Page.message ;;
   if decide (msg = EmptyString) then ui_ret tt
   else
     r <- ui_gets Page.role ;;
     ui_modify (λ p, set_state (push_turn {| role := r; content := msg |} (Page.state p)) p) ;;
     on_state render ;;
     ui_modify (set_message EmptyString) ;;
     on_state scrollToBottom)%ui.

(** [submitHandler], the click handler of the Run button. *)
Definition submitHandler (env : Env) : Ui unit :=
  (sel <- ui_gets (λ p, selectedModelId (Page.state p)) ;;
   if decide (sel = EmptyString) then ui_ret tt
   else
     addHandler ;;
     ui_modify (set_loading true) ;;
     on_state (chatCompletionHandler env) ;;
     ui_modify (set_loading false) ;;
     ui_modify (λ p, set_state (set_stopResponseFlag false (Page.state p)) p))%ui.

(** [role = role === 'user' ? 'assistant' : 'user'] *)
Definition toggle_role (p : Page.t) : Page.t :=
  set_role (if decide (Page.role p = "user") then "assistant" else "user") p.

(** The click handler of the Add button: [addHandler()] is started and the
    role is switched; the switch comes before the scroll that ends
    [addHandler], which reads no role. *)
Definition add_click : Ui unit :=
  (addHandler ;; ui_modify toggle_role)%ui.

(** Typing into the message box, which is bound to [message]. *)
Definition type_message (text : string) (p : Page.t) : Page.t := set_message text p.

Definition scrolls (evs : list Event) : nat :=
  length (omap (λ e, match e with EScroll => Some tt | _ => None end) evs).

(** The handler leaves the selection and the system text alone. *)
Definition keeps_selection : State → list Event → State → Prop :=
  λ s _ s', selectedModelId s' = selectedModelId s ∧ system s' = system s.

Definition nonblank (line : string) : bool := negb (bool_decide (line = EmptyString)).

(** A page on which "Hi" is typed as a user turn, and one that is idle. *)
Definition sample_page (ms : list Turn) (typed : string) : Page.t :=
  {| Page.state := sample_state ms; Page.role := "user"; Page.message := typed;
     Page.loading := false |}.

(** Two more lines a backend sends: an error object in place of an event,
    and an event whose delta carries no content. *)
Definition error_text : string :=
  "{" +:+ quoted "error" +:+ ":" +:+ quoted "overloaded" +:+ "}".

Definition empty_delta_text : string :=
  "{" +:+ quoted "choices" +:+ ":[{" +:+ quoted "delta" +:+ ":{}}]}".

Definition empty_delta_json : json :=
  JObj [("choices", JArr [JObj [("delta", JObj [])]])].

(** [JSON.parse] on these two texts and on the event for "Hello". *)
Definition backend_parse (text : string) : option json :=
  if decide (text = error_text) then Some (JObj [("error", JStr "overloaded")])
  else if decide (text = empty_delta_text) then Some empty_delta_json
  else if decide (text = event_text "Hello") then Some (event_json (JStr "Hello"))
  else None.

Definition backend_env (res : option Response) : Env :=
  {| models := [ {| Model.id := "llama3"; Model.name := "Llama 3" |} ];
     token := "secret";
     WEBUI_BASE_URL := "http://localhost:8080";
     i18n_t := λ key, key;
     JSON_parse := backend_parse;
     response := res;
     cancel_clicked := never |}.

(** An event whose delta content is the object [{"toString":1}], which
    converts to no string, and [JSON.parse] on its text and on the event for
    "World". *)
Definition unconvertible_text : string :=
  "{" +:+ quoted "choices" +:+ ":[{" +:+ quoted "delta" +:+ ":{"
      +:+ quoted "content" +:+ ":{" +:+ quoted "toString" +:+ ":1}}}]}".

Definition unconvertible_json : json := event_json (JObj [("toString", JNum "1")]).

Definition conversion_parse (text : string) : option json :=
  if decide (text = unconvertible_text) then Some unconvertible_json
  else if decide (text = event_text "World") then Some (event_json (JStr "World"))
  else None.

Definition conversion_env (res : option Response) : Env :=
  {| models := [ {| Model.id := "llama3"; Model.name := "Llama 3" |} ];
     token := "secret";
     WEBUI_BASE_URL := "http://localhost:8080";
     i18n_t := λ key, key;
     JSON_parse := conversion_parse;
     response := res;
     cancel_clicked := never |}.

(** ** Mounting the component *)

(** [text.split(sep)] for a one-character separator. *)
Fixpoint split_on (sep : ascii) (text : string) : list string :=
  match text with
  | EmptyString => [EmptyString]
  | String c rest =>
      if Ascii.eqb c sep then EmptyString :: split_on sep rest
      else match split_on sep rest with
           | [] => [String c EmptyString]
           | piece :: pieces => String c piece :: pieces
           end
  end.

(** What the stores hold when the component mounts: [$user?.role],
    [$settings?.models] and [$config?.default_models], each [None] when it is
    undefined or null. *)
Record Stores : Type := {
  user_role : option string;
  settings_models : option (list string);
  default_models : option string
}.

(** What [onMount] does: whether it called [goto('/')], the value it assigned
    to [selectedModelId] ([None] for undefined) and the [loaded] flag. *)
Record Mounted : Type := {
  redirected : bool;
  selected : option string;
  loaded : bool
}.

(** The callback given to [onMount].  An array is truthy even when empty; a
    string is truthy unless empty. *)
Definition onMount (stores : Stores) : Mounted :=
  {| redirected := negb (bool_decide (user_role stores = Some "admin"));
     selected :=
       match settings_models stores with
       | Some saved => head saved
       | None =>
           match default_models stores with
           | Some defaults =>
               if decide (defaults = EmptyString) then Some EmptyString
               else head (split_on ","%char defaults)
           | None => Some EmptyString
           end
       end;
     loaded := true |}.

Fixpoint has_char (c : ascii) (text : string) : bool :=
  match text with
  | EmptyString => false
  | String a rest => Ascii.eqb a c || has_char c rest
  end.

(** ** A small logic for handler code

    A relation between the state before, the events emitted and the state
    after is compositional when it holds of doing nothing and is closed under
    sequencing; code respects it when every run of the code is in it. *)
Class Compositional (R : State → list Event → State → Prop) : Prop := {
  comp_nil : ∀ s, R s [] s;
  comp_app : ∀ s evs s' evs' s'',
    R s evs s' → R s' evs' s'' → R s (evs ++ evs') s''
}.

Definition respects (R : State → list Event → State → Prop) {A} (m : Js A) : Prop :=
  ∀ s, R s (events (m s)) (final (m s)).

(** Only events of a given kind are emitted. *)
Definition only (P : Event → Prop) : State → list Event → State → Prop :=
  λ _ evs _, Forall P evs.

(** The conversation, as rendered and as left, only extends. *)
Definition ascends : State → list Event → State → Prop :=
  λ s evs s', ascending (messages s) (renders evs ++ [messages s']).

(** What the code of one chunk may emit. *)
Definition line_event (e : Event) : Prop :=
  match e with
  | ERender _ | EResize | EParse _ | ELog _ => True
  | _ => False
  end.

(** What the code of one line may emit: no error is logged there. *)
Definition quiet_line_event (e : Event) : Prop :=
  match e with
  | ERender _ | EResize | EParse _ | ELog (LogText _) | ELog (LogData _) => True
  | _ => False
  end.

(** What the read loop may emit. *)
Definition stream_event (e : Event) : Prop :=
  match e with
  | EToastError _ | EChatCompletion _ _ _ => False
  | _ => True
  end.

Ltac run_js :=
  cbv [bind ret throw pend emit gets modify lift try_catch await stopResponse render
       scrollToBottom final events completion].

Ltac line_case :=
  match goal with
  | |- context [decide (?x = ?y)] => destruct (decide (x = y))
  | |- context [JSON_parse ?e ?t] => destruct (JSON_parse e t) eqn:?
  | H : delta_content ?d = _ |- context [delta_content ?d] => rewrite H
  | |- context [delta_content ?d] => destruct (delta_content d) eqn:?
  | H : loose_eq_newline ?v = _ |- context [loose_eq_newline ?v] => rewrite H
  | |- context [loose_eq_newline ?v] => destruct (loose_eq_newline v) as [[]| |] eqn:?
  | H : fragment_text ?v = _ |- context [fragment_text ?v] => rewrite H
  | |- context [fragment_text ?v] => destruct (fragment_text v) eqn:?
  | |- context [cancel_clicked ?e ?p] => destruct (cancel_clicked e p) eqn:?
  end.

(** ** Strings and the last turn *)

Lemma append_cons (a : ascii) (s t : string) : String a s +:+ t = String a (s +:+ t).
Proof. done. Qed.

Lemma append_nil_r (s : string) : s +:+ EmptyString = s.
Proof. induction s as [|a s IH]; [done | by rewrite append_cons, IH]. Qed.

Lemma append_assoc (s t u : string) : (s +:+ t) +:+ u = s +:+ (t +:+ u).
Proof. induction s as [|a s IH]; [done | by rewrite !append_cons, IH]. Qed.

Lemma append_newline_ne (c : string) : c +:+ newline ≠ c.
Proof.
  intros Heq. apply (f_equal String.length) in Heq. revert Heq.
  assert (String.length (c +:+ newline) = S (String.length c)) as ->; [|lia].
  induction c as [|a c IH]; [done|]. rewrite append_cons. simpl. by rewrite IH.
Qed.

Lemma update_last_snoc (f : Turn → Turn) (others : list Turn) (t : Turn) :
  update_last f (others ++ [t]) = others ++ [f t].
Proof.
  induction others as [|t' others IH]; [done|].
  simpl. rewrite IH. by destruct others.
Qed.

Lemma responseMessage_content_snoc (others : list Turn) (t : Turn) :
  responseMessage_content (others ++ [t]) = content t.
Proof. unfold responseMessage_content. by rewrite last_snoc. Qed.

Lemma nonempty_snoc (ms : list Turn) : ms ≠ [] → ∃ others t, ms = others ++ [t].
Proof.
  intros Hne. destruct (decide (ms = [])) as [->|_]; [done|].
  induction ms as [|t ms IH] using rev_ind; [done | eauto].
Qed.

Lemma with_content_snoc (c : string) (others : list Turn) (t : Turn) :
  with_content c (others ++ [t]) = others ++ [ {| role := role t; content := c |} ].
Proof. apply update_last_snoc. Qed.

Lemma with_content_idem (c c' : string) (ms : list Turn) :
  with_content c (with_content c' ms) = with_content c ms.
Proof.
  destruct (decide (ms = [])) as [->|Hne]; [done|].
  destruct (nonempty_snoc ms Hne) as (others & t & ->).
  by rewrite !with_content_snoc.
Qed.

Lemma with_content_same (ms : list Turn) :
  with_content (responseMessage_content ms) ms = ms.
Proof.
  destruct (decide (ms = [])) as [->|Hne]; [done|].
  destruct (nonempty_snoc ms Hne) as (others & t & ->).
  rewrite with_content_snoc, responseMessage_content_snoc. by destruct t.
Qed.

Lemma append_to_last (text : string) (ms : list Turn) :
  update_last (append_content text) ms
  = with_content (responseMessage_content ms +:+ text) ms.
Proof.
  destruct (decide (ms = [])) as [->|Hne]; [done|].
  destruct (nonempty_snoc ms Hne) as (others & t & ->).
  by rewrite update_last_snoc, with_content_snoc, responseMessage_content_snoc.
Qed.

Lemma content_with_content (c : string) (ms : list Turn) :
  ms ≠ [] → responseMessage_content (with_content c ms) = c.
Proof.
  intros Hne. destruct (nonempty_snoc ms Hne) as (others & t & ->).
  by rewrite with_content_snoc, responseMessage_content_snoc.
Qed.

Lemma chosen_nonempty (ms : list Turn) : chosen ms ≠ [].
Proof.
  unfold chosen, last_is_assistant. case_bool_decide as Hlast.
  - intros ->. done.
  - by destruct ms.
Qed.

(** ** The rules of the logic *)

Section Rules.
Context (R : State → list Event → State → Prop) `{!Compositional R}.

Lemma respects_ret {A} (a : A) : respects R (ret a).
Proof. intros s. apply comp_nil. Qed.

Lemma respects_throw {A} (e : Error) : respects R (throw (A := A) e).
Proof. intros s. apply comp_nil. Qed.

Lemma respects_gets {A} (f : State → A) : respects R (gets f).
Proof. intros s. apply comp_nil. Qed.

Lemma respects_pend {A} : respects R (pend (A := A)).
Proof. intros s. apply comp_nil. Qed.

Lemma respects_lift {A} (c : Completion A) : respects R (lift c).
Proof. destruct c; [apply respects_ret | apply respects_throw | apply respects_pend]. Qed.

Lemma respects_emit (e : Event) : (∀ s, R s [e] s) → respects R (emit e).
Proof. intros He s. apply He. Qed.

Lemma respects_modify (f : State → State) :
  (∀ s, R s [] (f s)) → respects R (modify f).
Proof. intros Hf s. apply Hf. Qed.

Lemma respects_bind {A B} (m : Js A) (k : A → Js B) :
  respects R m → (∀ a, respects R (k a)) → respects R (bind m k).
Proof.
  intros Hm Hk s. unfold bind. specialize (Hm s).
  destruct (completion (m s)) as [a|e|]; [|done..].
  cbn [final events]. eapply comp_app; [done | apply Hk].
Qed.

Lemma respects_try_catch (block : Js unit) (handler : Error → Js unit) :
  respects R block → (∀ e, respects R (handler e)) →
  respects R (try_catch block handler).
Proof.
  intros Hb Hh s. unfold try_catch. specialize (Hb s).
  destruct (completion (block s)) as [a|e|]; [done| |done].
  cbn [final events]. eapply comp_app; [done | apply Hh].
Qed.
End Rules.

Global Instance only_compositional (P : Event → Prop) : Compositional (only P).
Proof.
  split; unfold only.
  - by intros _.
  - intros. by apply Forall_app.
Qed.

Lemma extends_refl (m : list Turn) : extends m m.
Proof.
  exists EmptyString. rewrite append_to_last, append_nil_r. by rewrite with_content_same.
Qed.

Lemma extends_trans (m1 m2 m3 : list Turn) : extends m1 m2 → extends m2 m3 → extends m1 m3.
Proof.
  intros [u ->] [v ->]. exists (u +:+ v).
  destruct (decide (m1 = [])) as [->|Hne]; [done|].
  destruct (nonempty_snoc m1 Hne) as (others & t & ->).
  rewrite !update_last_snoc. unfold append_content; simpl. by rewrite append_assoc.
Qed.

Lemma ascending_weaken (m m' : list Turn) (timeline : list (list Turn)) :
  extends m m' → ascending m' timeline → ascending m timeline.
Proof.
  destruct timeline as [|m'' rest]; [done|].
  intros H [H' Hrest]. split; [by eapply extends_trans | done].
Qed.

Lemma ascending_app (m m1 : list Turn) (l1 l2 : list (list Turn)) :
  ascending m (l1 ++ [m1]) → ascending m1 l2 → ascending m (l1 ++ l2).
Proof.
  revert m. induction l1 as [|m' l1 IH]; intros m; simpl.
  - intros [H _]. by apply ascending_weaken.
  - intros [H Hrest] H2. split; [done | by apply IH].
Qed.

Lemma renders_app (evs evs' : list Event) : renders (evs ++ evs') = renders evs ++ renders evs'.
Proof. apply omap_app. Qed.

Global Instance ascends_compositional : Compositional ascends.
Proof.
  split; unfold ascends.
  - intros s. simpl. split; [apply extends_refl | done].
  - intros s evs s' evs' s'' H1 H2.
    rewrite renders_app, <- app_assoc. by eapply ascending_app.
Qed.

(** One rule of the logic at a time, down to the side conditions on the
    events emitted and the state changes made. *)
Ltac respects_step :=
  match goal with
  | |- respects ?R (bind _ _) => apply (respects_bind R); [|intros ?]
  | |- respects ?R (try_catch _ _) => apply (respects_try_catch R); [|intros ?]
  | |- respects ?R (ret _) => apply (respects_ret R)
  | |- respects ?R (throw _) => apply (respects_throw R)
  | |- respects ?R pend => apply (respects_pend R)
  | |- respects ?R (gets _) => apply (respects_gets R)
  | |- respects ?R (lift _) => apply (respects_lift R)
  | |- respects ?R (emit _) => apply (respects_emit R); intros ?
  | |- respects ?R (modify _) => apply (respects_modify R); intros ?
  | |- respects _ (await _ _) => unfold await
  | |- respects _ stopResponse => unfold stopResponse
  | |- respects _ scrollToBottom => unfold scrollToBottom
  | |- respects _ (if ?b then _ else _) => destruct b
  | |- respects _ (match ?x with _ => _ end) => destruct x
  end.

(** ** Property reads and conversions *)

(** Induction on a parsed value, with the items of an array at hand. *)
Lemma json_items_ind (P : json → Prop) :
  P JNull → (∀ b, P (JBool b)) → (∀ repr, P (JNum repr)) → (∀ s, P (JStr s)) →
  (∀ items, Forall P items → P (JArr items)) →
  (∀ fields, P (JObj fields)) →
  ∀ v, P v.
Proof.
  intros Hnull Hbool Hnum Hstr Harr Hobj. fix IH 1.
  intros [|b|repr|s|items|fields]; [done..| |done].
  apply Harr. induction items as [|item items IHitems]; constructor; [apply IH | done].
Qed.

Lemma get_prop_settled (v : jsval) (key : string) : get_prop v key ≠ Pending.
Proof. by destruct v as [[]|]. Qed.

Lemma and_then_settled {A B} (c : Completion A) (k : A → Completion B) :
  c ≠ Pending → (∀ a, k a ≠ Pending) → and_then c k ≠ Pending.
Proof. intros Hc Hk. destruct c; [apply Hk | done | done]. Qed.

Lemma delta_content_settled (data : json) : delta_content data ≠ Pending.
Proof.
  unfold delta_content.
  repeat (apply and_then_settled; [apply get_prop_settled | intros ?]).
  apply get_prop_settled.
Qed.

Lemma sequence_settled {A} (cs : list (Completion A)) :
  Forall (λ c, c ≠ Pending) cs → sequence cs ≠ Pending.
Proof.
  induction 1 as [|c cs Hc _ IH]; [done|]. cbn [sequence].
  apply and_then_settled; [done|]. intros a. by apply and_then_settled.
Qed.

Lemma js_to_string_settled (v : json) : js_to_string v ≠ Pending.
Proof.
  induction v as [|b|repr|s|items IH|fields] using json_items_ind; try done.
  - cbn [js_to_string]. apply and_then_settled; [|done].
    apply sequence_settled, Forall_map. eapply Forall_impl; [exact IH|].
    intros item Hitem. by destruct item.
  - cbn [js_to_string]. by destruct (assoc "toString" fields).
Qed.

Lemma fragment_text_settled (v : jsval) : fragment_text v ≠ Pending.
Proof. destruct v as [[]|]; try done; apply js_to_string_settled. Qed.

(** [==] and [+=] convert the same value: when the one throws, so does the
    other, with the same error. *)
Lemma conversions_agree (v : jsval) :
  match fragment_text v with
  | Normal _ => ∃ skip, loose_eq_newline v = Normal skip
  | Throw e => loose_eq_newline v = Throw e
  | Pending => False
  end.
Proof.
  pose proof (fragment_text_settled v) as Hsettled.
  destruct v as [[|b|repr|s|items|fields]|]; try (by eexists).
  all: unfold loose_eq_newline, fragment_text in *.
  all: destruct (js_to_string _); [by eexists | done | done].
Qed.

Lemma loose_eq_newline_settled (v : jsval) : loose_eq_newline v ≠ Pending.
Proof.
  pose proof (conversions_agree v) as Hagree. intros Hpending.
  destruct (fragment_text v); [destruct Hagree as [skip Hskip]|..]; congruence.
Qed.

(** The paths that no line takes. *)
Ltac line_absurd :=
  match goal with
  | H : delta_content _ = Pending |- _ => exfalso; exact (delta_content_settled _ H)
  | H : fragment_text _ = Pending |- _ => exfalso; exact (fragment_text_settled _ H)
  | H : loose_eq_newline _ = Pending |- _ => exfalso; exact (loose_eq_newline_settled _ H)
  | H : loose_eq_newline ?v = Throw _, H' : fragment_text ?v = Normal _ |- _ =>
      exfalso; pose proof (conversions_agree v) as Hagree; rewrite H' in Hagree;
      destruct Hagree as [? Hagree]; congruence
  | H : loose_eq_newline ?v = Normal _, H' : fragment_text ?v = Throw _ |- _ =>
      exfalso; pose proof (conversions_agree v) as Hagree; rewrite H' in Hagree;
      congruence
  end.

Ltac line_agree :=
  match goal with
  | H : loose_eq_newline ?v = Throw ?e, H' : fragment_text ?v = Throw ?e' |- _ =>
      tryif constr_eq e e' then fail
      else (let Hagree := fresh in
            pose proof (conversions_agree v) as Hagree; rewrite H', H in Hagree;
            injection Hagree as ->)
  end.

(** Every path through [process_line], one goal each. *)
Ltac line_cases :=
  unfold process_line, classify; run_js;
  repeat (line_case; cbn beta iota);
  try line_absurd; repeat line_agree.

(** ** One line *)

Section Lines.
Context (env : Env).

Lemma process_line_messages n i line s :
  messages (final (process_line env n i line s))
  = with_content (lines_content env (responseMessage_content (messages s)) [line])
                 (messages s).
Proof.
  unfold lines_content, apply_delta, elided, fragment.
  line_cases.
  all: rewrite ?bool_decide_eq_true_2, ?bool_decide_eq_false_2 by done.
  all: cbn [andb app messages append_to_response set_messages set_stopResponseFlag].
  all: by rewrite ?with_content_same, ?append_to_last.
Qed.

Lemma process_line_completion n i line s :
  completion (process_line env n i line s)
  = match classify env line with
    | Malformed e => Throw e
    | _ => Normal tt
    end.
Proof. line_cases; done. Qed.

Lemma process_line_flag n i line s :
  cancel_clicked env (AwAppend n i) = false →
  stopResponseFlag (final (process_line env n i line s)) = stopResponseFlag s.
Proof. intros Hclick. line_cases; done. Qed.

Lemma render_ascends : respects ascends render.
Proof. intros s. cbn. split; [apply extends_refl | split; [apply extends_refl | done]]. Qed.

Lemma process_line_ascends n i line : respects ascends (process_line env n i line).
Proof.
  unfold process_line.
  repeat first [apply render_ascends | respects_step].
  all: try (split; [apply extends_refl | done]).
  split; [|done]. by eexists.
Qed.

Lemma process_line_events n i line :
  respects (only quiet_line_event) (process_line env n i line).
Proof.
  unfold process_line, render.
  repeat respects_step.
  all: by repeat constructor.
Qed.
End Lines.

(** ** The lines of one chunk *)

Section Chunks.
Context (env : Env).

Lemma lines_content_cons c line rest :
  lines_content env c (line :: rest)
  = match classify env line with
    | Malformed _ => c
    | _ => lines_content env (lines_content env c [line]) rest
    end.
Proof. simpl. by destruct (classify env line). Qed.

Lemma bind_final_events {A B} (m : Js A) (k : A → Js B) s a :
  completion (m s) = Normal a →
  final (bind m k s) = final (k a (final (m s)))
  ∧ events (bind m k s) = events (m s) ++ events (k a (final (m s)))
  ∧ completion (bind m k s) = completion (k a (final (m s))).
Proof. intros H. unfold bind. by rewrite H. Qed.

Lemma bind_thrown {A B} (m : Js A) (k : A → Js B) s e :
  completion (m s) = Throw e →
  final (bind m k s) = final (m s)
  ∧ events (bind m k s) = events (m s)
  ∧ completion (bind m k s) = Throw e.
Proof. intros H. unfold bind. by rewrite H. Qed.

Lemma bind_pending {A B} (m : Js A) (k : A → Js B) s :
  completion (m s) = Pending →
  final (bind m k s) = final (m s)
  ∧ events (bind m k s) = events (m s)
  ∧ completion (bind m k s) = Pending.
Proof. intros H. unfold bind. by rewrite H. Qed.

Lemma for_lines_messages n i lines s :
  messages (final (for_lines env n i lines s))
  = with_content (lines_content env (responseMessage_content (messages s)) lines)
                 (messages s).
Proof.
  revert i s. induction lines as [|line rest IH]; intros i s.
  - simpl. by rewrite with_content_same.
  - cbn [for_lines]. rewrite lines_content_cons.
    pose proof (process_line_completion env n i line s) as Hc.
    pose proof (process_line_messages env n i line s) as Hm.
    destruct (classify env line) eqn:Hkind.
    3: { apply bind_thrown with (k := λ _, for_lines env n (S i) rest) in Hc
           as (-> & _ & _).
         rewrite Hm. simpl. by rewrite Hkind. }
    all: apply bind_final_events with (k := λ _, for_lines env n (S i) rest) in Hc
           as (-> & _ & _).
    all: rewrite IH, Hm, with_content_idem.
    all: destruct (decide (messages s = [])) as [->|Hne]; [done|].
    all: by rewrite content_with_content.
Qed.

Lemma for_lines_completion n i lines s :
  completion (for_lines env n i lines s)
  = match first_error env lines with
    | Some e => Throw e
    | None => Normal tt
    end.
Proof.
  revert i s. induction lines as [|line rest IH]; intros i s; [done|].
  cbn [for_lines first_error].
  pose proof (process_line_completion env n i line s) as Hc.
  destruct (classify env line) eqn:Hkind.
  3: { by apply bind_thrown with (k := λ _, for_lines env n (S i) rest) in Hc
         as (_ & _ & ->). }
  all: apply bind_final_events with (k := λ _, for_lines env n (S i) rest) in Hc
         as (_ & _ & ->).
  all: apply IH.
Qed.

Lemma for_lines_flag n i lines s :
  (∀ j, cancel_clicked env (AwAppend n j) = false) →
  stopResponseFlag (final (for_lines env n i lines s)) = stopResponseFlag s.
Proof.
  intros Hquiet. revert i s. induction lines as [|line rest IH]; intros i s; [done|].
  cbn [for_lines].
  pose proof (process_line_flag env n i line s (Hquiet i)) as Hf.
  destruct (completion (process_line env n i line s)) as [[]|e|] eqn:Hc.
  - apply bind_final_events with (k := λ _, for_lines env n (S i) rest) in Hc
      as (-> & _ & _).
    by rewrite IH.
  - by apply bind_thrown with (k := λ _, for_lines env n (S i) rest) in Hc
      as (-> & _ & _).
  - by apply bind_pending with (k := λ _, for_lines env n (S i) rest) in Hc
      as (-> & _ & _).
Qed.

Lemma for_lines_respects R `{!Compositional R} n lines :
  (∀ i line, respects R (process_line env n i line)) →
  ∀ i, respects R (for_lines env n i lines).
Proof.
  intros Hline. induction lines as [|line rest IH]; intros i; cbn [for_lines].
  - apply (respects_ret R).
  - apply (respects_bind R); [apply Hline | intros _; apply IH].
Qed.

Lemma process_chunk_messages n value s :
  messages (final (process_chunk env n value s))
  = with_content
      (lines_content env (responseMessage_content (messages s)) (split_newline value))
      (messages s).
Proof.
  rewrite <- (for_lines_messages n 0). unfold process_chunk, try_catch.
  by destruct (completion (for_lines env n 0 (split_newline value) s)).
Qed.

Lemma process_chunk_completion n value s :
  completion (process_chunk env n value s) = Normal tt.
Proof.
  unfold process_chunk, try_catch. rewrite for_lines_completion.
  destruct (first_error env (split_newline value)) eqn:Herr; [done|].
  by rewrite for_lines_completion, Herr.
Qed.

Lemma process_chunk_flag n value s :
  (∀ j, cancel_clicked env (AwAppend n j) = false) →
  stopResponseFlag (final (process_chunk env n value s)) = stopResponseFlag s.
Proof.
  intros Hquiet. rewrite <- (for_lines_flag n 0 (split_newline value) s Hquiet).
  unfold process_chunk, try_catch.
  by destruct (completion (for_lines env n 0 (split_newline value) s)).
Qed.

Lemma process_chunk_ascends n value : respects ascends (process_chunk env n value).
Proof.
  unfold process_chunk. respects_step.
  - apply (for_lines_respects ascends). intros. apply process_line_ascends.
  - respects_step. split; [apply extends_refl | done].
Qed.

Lemma process_chunk_events n value :
  respects (only line_event) (process_chunk env n value).
Proof.
  unfold process_chunk. respects_step.
  - apply (for_lines_respects (only line_event)). intros i line s.
    eapply Forall_impl; [apply process_line_events|]. by intros [| | | | | |[]| |].
  - respects_step. by repeat constructor.
Qed.

Lemma quiet_line_events_no_error evs :
  Forall quiet_line_event evs → logged_errors evs = [].
Proof.
  induction 1 as [|e evs He _ IH]; [done|].
  unfold logged_errors in *. change (e :: evs) with ([e] ++ evs).
  rewrite omap_app, IH. by destruct e as [| | | | | |[]| |].
Qed.

Lemma process_chunk_errors n value s :
  logged_errors (events (process_chunk env n value s))
  = match first_error env (split_newline value) with
    | Some e => [e]
    | None => []
    end.
Proof.
  unfold process_chunk, try_catch.
  pose proof (for_lines_completion n 0 (split_newline value) s) as Hc.
  pose proof (for_lines_respects (only quiet_line_event) n (split_newline value)
                (process_line_events env n) 0 s) as Hev.
  apply quiet_line_events_no_error in Hev.
  destruct (first_error env (split_newline value)) as [e|]; rewrite Hc.
  - cbn [events emit]. unfold logged_errors in *. by rewrite omap_app, Hev.
  - done.
Qed.
End Chunks.

(** ** The read loop *)

Section ReadLoop.
Context (env : Env).

Lemma read_loop_step n value rest ending s :
  cancel_clicked env (AwRead n) = false →
  stopResponseFlag s = false →
  read_loop env n (value :: rest) ending s
  = let o1 := process_chunk env n value s in
    let o2 := read_loop env (S n) rest ending (final o1) in
    {| final := final o2;
       events := ERead :: events o1 ++ EScroll :: events o2;
       completion := completion o2 |}.
Proof.
  intros Hclick Hflag. cbn [read_loop].
  cbv [bind emit gets ret await scrollToBottom].
  rewrite Hclick. cbn [final events completion]. rewrite Hflag.
  rewrite process_chunk_completion. cbn [final events completion].
  by destruct (completion (read_loop env (S n) rest ending _)).
Qed.

Lemma read_loop_done n s :
  cancel_clicked env (AwRead n) = false →
  stopResponseFlag s = false →
  read_loop env n [] Closes s
  = {| final := s; events := [ERead]; completion := Normal tt |}.
Proof.
  intros Hclick Hflag. cbn [read_loop].
  cbv [bind emit gets ret await scrollToBottom].
  rewrite Hclick. cbn [final events completion]. by rewrite Hflag.
Qed.

(** The reader has nothing left and does not report [done]. *)
Lemma read_loop_failed n ending s :
  cancel_clicked env (AwRead n) = false →
  ending ≠ Closes →
  read_loop env n [] ending s
  = {| final := s; events := [ERead];
       completion := match ending with
                     | Rejects e => Throw e
                     | _ => Pending
                     end |}.
Proof.
  intros Hclick Hending. cbn [read_loop].
  cbv [bind emit gets ret throw pend await scrollToBottom].
  rewrite Hclick. by destruct ending.
Qed.

Lemma read_loop_stopped n pending s :
  stopResponseFlag s = true →
  cancel_clicked env (AwRead n) = false →
  read_loop env n pending Closes s
  = {| final := s; events := [ERead; EAbort abort_reason]; completion := Normal tt |}.
Proof.
  intros Hflag Hclick. destruct pending; cbn [read_loop].
  all: cbv [bind emit gets ret await scrollToBottom].
  all: rewrite Hclick; cbn [final events completion]; by rewrite Hflag.
Qed.

Lemma read_loop_clicked n pending s :
  cancel_clicked env (AwRead n) = true →
  read_loop env n pending Closes s
  = {| final := set_stopResponseFlag true s;
       events := [ERead; ELog (LogText "stopResponse"); EAbort abort_reason];
       completion := Normal tt |}.
Proof.
  intros Hclick. destruct pending; cbn [read_loop].
  all: cbv [bind emit gets ret await stopResponse modify scrollToBottom].
  all: by rewrite Hclick.
Qed.

(** Whatever the user clicks, a loop whose reader closes ends normally. *)
Lemma read_loop_completion n pending s :
  completion (read_loop env n pending Closes s) = Normal tt.
Proof.
  revert n s. induction pending as [|value rest IH]; intros n s.
  - destruct (cancel_clicked env (AwRead n)) eqn:Hclick;
      [by rewrite read_loop_clicked|].
    destruct (stopResponseFlag s) eqn:Hflag;
      [by rewrite read_loop_stopped | by rewrite read_loop_done].
  - destruct (cancel_clicked env (AwRead n)) eqn:Hclick;
      [by rewrite read_loop_clicked|].
    destruct (stopResponseFlag s) eqn:Hflag; [by rewrite read_loop_stopped|].
    rewrite read_loop_step by done. apply IH.
Qed.

Lemma read_loop_respects R `{!Compositional R} :
  (∀ n value, respects R (process_chunk env n value)) →
  (∀ s, R s [ERead] s) → (∀ s, R s [EScroll] s) → (∀ s reason, R s [EAbort reason] s) →
  (∀ s, R s [] (set_stopResponseFlag true s)) → (∀ s text, R s [ELog (LogText text)] s) →
  ∀ n pending ending, respects R (read_loop env n pending ending).
Proof.
  intros Hchunk Hread Hscroll Habort Hflag Hlog n pending ending. revert n.
  induction pending as [|value rest IH]; intros n; cbn [read_loop].
  all: repeat first [apply Hchunk | apply IH | respects_step]; auto.
Qed.

Lemma read_loop_ascends n pending ending :
  respects ascends (read_loop env n pending ending).
Proof.
  apply (read_loop_respects ascends); [apply process_chunk_ascends | ..].
  all: intros; split; [apply extends_refl | done].
Qed.

Lemma read_loop_events n pending ending :
  respects (only stream_event) (read_loop env n pending ending).
Proof.
  apply (read_loop_respects (only stream_event)).
  2-6: intros; by repeat constructor.
  intros k value s.
  eapply Forall_impl; [apply process_chunk_events|]. by intros [].
Qed.

(** A run that the user lets run: every chunk is processed, and the loop
    ends as the reader does. *)
Lemma read_loop_quiet n pending ending s :
  stopResponseFlag s = false →
  (∀ k, cancel_clicked env (AwRead k) = false) →
  (∀ k j, cancel_clicked env (AwAppend k j) = false) →
  let o := read_loop env n pending ending s in
  messages (final o)
  = with_content (chunks_content env (responseMessage_content (messages s)) pending)
                 (messages s)
  ∧ aborts (events o) = []
  ∧ reads (events o) = S (length pending)
  ∧ logged_errors (events o)
    = omap (λ chunk, first_error env (split_newline chunk)) pending
  ∧ completion o = match ending with
                   | Closes => Normal tt
                   | Rejects e => Throw e
                   | Stalls => Pending
                   end.
Proof.
  intros Hflag Hread Happend. revert n s Hflag.
  induction pending as [|value rest IH]; intros n s Hflag; cbn zeta.
  - destruct ending as [|e|].
    + rewrite read_loop_done by done. cbn. by rewrite with_content_same.
    + rewrite read_loop_failed by done. cbn. by rewrite with_content_same.
    + rewrite read_loop_failed by done. cbn. by rewrite with_content_same.
  - rewrite read_loop_step by done. cbn [final events completion].
    set (s1 := final (process_chunk env n value s)).
    destruct (IH (S n) s1) as (Hm & Ha & Hr & He & Hc).
    { unfold s1. by rewrite process_chunk_flag. }
    pose proof (process_chunk_events env n value s) as Hev. unfold only in Hev.
    split; [|split; [|split; [|split; [|done]]]].
    + rewrite Hm. unfold s1. rewrite process_chunk_messages, with_content_idem.
      destruct (decide (messages s = [])) as [->|Hne]; [done|].
      by rewrite content_with_content.
    + unfold aborts in *.
      change (ERead :: ?a ++ EScroll :: ?b) with ([ERead] ++ a ++ [EScroll] ++ b).
      rewrite !omap_app, Ha. simpl. rewrite app_nil_r.
      clear -Hev. induction Hev as [|e evs He _ IHev]; [done|].
      change (e :: evs) with ([e] ++ evs). rewrite omap_app, IHev. by destruct e.
    + unfold reads in *.
      change (ERead :: ?a ++ EScroll :: ?b) with ([ERead] ++ a ++ [EScroll] ++ b).
      rewrite !omap_app, !length_app, Hr. simpl.
      assert (omap (λ e, match e with ERead => Some () | _ => None end)
                (events (process_chunk env n value s)) = []) as ->; [|done].
      clear -Hev. induction Hev as [|e evs He _ IHev]; [done|].
      change (e :: evs) with ([e] ++ evs). rewrite omap_app, IHev. by destruct e.
    + unfold logged_errors in *.
      change (ERead :: ?a ++ EScroll :: ?b) with ([ERead] ++ a ++ [EScroll] ++ b).
      rewrite !omap_app, He. fold (logged_errors (events (process_chunk env n value s))).
      rewrite process_chunk_errors. simpl.
      by destruct (first_error env (split_newline value)).
Qed.
End ReadLoop.

(** ** The handler around the loop *)

Lemma line_events_silent (evs : list Event) :
  Forall line_event evs → aborts evs = [] ∧ reads evs = 0.
Proof.
  induction 1 as [|e evs He _ [IHa IHr]]; [done|].
  unfold aborts, reads in *. change (e :: evs) with ([e] ++ evs).
  rewrite !omap_app, length_app, IHa, IHr. by destruct e.
Qed.

Lemma stream_events_silent (evs : list Event) :
  Forall stream_event evs → requests evs = [] ∧ toasts evs = [].
Proof.
  induction 1 as [|e evs He _ [IHr IHt]]; [done|].
  unfold requests, toasts in *. change (e :: evs) with ([e] ++ evs).
  rewrite !omap_app, IHr, IHt. by destruct e.
Qed.

Lemma bind_gets {A B} (f : State → A) (k : A → Js B) (s : State) :
  bind (gets f) k s = k (f s) s.
Proof. unfold bind, gets, ret. cbn. by destruct (k (f s) s). Qed.

Lemma bind_outcome {A B} (m : Js A) (k : A → Js B) (s : State) (a : A) :
  completion (m s) = Normal a →
  bind m k s
  = {| final := final (k a (final (m s)));
       events := events (m s) ++ events (k a (final (m s)));
       completion := completion (k a (final (m s))) |}.
Proof. intros H. unfold bind. by rewrite H. Qed.

Section Handler.
Context (env : Env).

Lemma find_model_resolved s :
  resolved env s →
  ∃ model,
    List.find (λ m, bool_decide (Model.id m = selectedModelId s)) (models env)
    = Some model
    ∧ Model.id model = selectedModelId s.
Proof.
  intros (_ & m & Hin & Hid).
  destruct (List.find _ (models env)) as [model|] eqn:Hfind.
  - exists model. split; [done|].
    apply find_some in Hfind as [_ Hdec]. by apply bool_decide_eq_true in Hdec.
  - apply list_elem_of_In in Hin.
    pose proof (find_none _ _ Hfind m Hin) as Hdec. by apply bool_decide_eq_false in Hdec.
Qed.

Lemma find_model_unknown s :
  (∀ m, m ∈ models env → Model.id m ≠ selectedModelId s) →
  List.find (λ m, bool_decide (Model.id m = selectedModelId s)) (models env) = None.
Proof.
  intros Hunknown.
  destruct (List.find _ (models env)) as [model|] eqn:Hfind; [|done].
  apply find_some in Hfind as [Hin Hdec].
  apply bool_decide_eq_true in Hdec. apply list_elem_of_In in Hin.
  by destruct (Hunknown model Hin).
Qed.

Lemma handler_resolved s :
  resolved env s →
  ∃ model, Model.id model = selectedModelId s
           ∧ chatCompletionHandler env s = issue_and_stream env model s.
Proof.
  intros Hres. destruct (find_model_resolved s Hres) as (model & Hfind & Hid).
  exists model. split; [done|].
  destruct Hres as [Hsel _].
  unfold chatCompletionHandler. rewrite bind_gets.
  destruct (decide (selectedModelId s = EmptyString)); [done|].
  by rewrite Hfind.
Qed.

Lemma handler_unselected s :
  selectedModelId s = EmptyString →
  chatCompletionHandler env s
  = {| final := s;
       events := [EToastError (i18n_t env "Please select a model.")];
       completion := Normal tt |}.
Proof.
  intros Hsel.
  unfold chatCompletionHandler. rewrite bind_gets.
  by destruct (decide (selectedModelId s = EmptyString)).
Qed.

Lemma handler_unknown s :
  selectedModelId s ≠ EmptyString →
  (∀ m, m ∈ models env → Model.id m ≠ selectedModelId s) →
  chatCompletionHandler env s
  = {| final := set_selectedModelId EmptyString s; events := []; completion := Normal tt |}.
Proof.
  intros Hsel Hunknown.
  unfold chatCompletionHandler. rewrite bind_gets.
  destruct (decide (selectedModelId s = EmptyString)); [done|].
  by rewrite find_model_unknown.
Qed.

Lemma unresolved_cases s :
  ¬ resolved env s →
  selectedModelId s = EmptyString
  ∨ (selectedModelId s ≠ EmptyString
     ∧ ∀ m, m ∈ models env → Model.id m ≠ selectedModelId s).
Proof.
  intros Hnot. destruct (decide (selectedModelId s = EmptyString)) as [|Hsel]; [by left|].
  right. split; [done|]. intros m Hin Hid. apply Hnot. split; [done | by exists m].
Qed.

(** The state in which the loop starts, and what was emitted on the way. *)
Lemma choose_responseMessage_outcome s :
  choose_responseMessage s
  = {| final := set_messages (chosen (messages s)) s;
       events := if last_is_assistant (messages s) then []
                 else [ERender (chosen (messages s))];
       completion := Normal tt |}.
Proof.
  unfold choose_responseMessage, chosen. run_js.
  destruct (last_is_assistant (messages s)); [by destruct s | done].
Qed.

Lemma await_outcome p s :
  await env p s
  = {| final := if cancel_clicked env p then set_stopResponseFlag true s else s;
       events := if cancel_clicked env p then [ELog (LogText "stopResponse")] else [];
       completion := Normal tt |}.
Proof. unfold await. by destruct (cancel_clicked env p). Qed.

Lemma request_messages_filtered sys ms :
  request_messages sys ms
  = if decide (sys = EmptyString) then ms
    else {| role := "system"; content := sys |} :: ms.
Proof.
  unfold request_messages, system_turn.
  assert (omap (λ entry : option Turn, entry) (Some <$> ms) = ms) as Hms.
  { induction ms as [|t ms IH]; [done|]. csimpl. by rewrite IH. }
  destruct (decide (sys = EmptyString)); csimpl; by rewrite Hms.
Qed.

Lemma issue_and_stream_outcome model s :
  let s1 := final (await env AwRequest s) in
  let s2 := set_messages (chosen (messages s)) s1 in
  let s3 := final (await env AwMount s2) in
  let o := match response env with
           | Some res => if ok res then read_loop env 0 (body res) (ending res) s3 else ret tt s3
           | None => ret tt s3
           end in
  issue_and_stream env model s
  = {| final := final o;
       events :=
         EChatCompletion (token env)
           {| Request.model := Model.id model; Request.stream := true;
              Request.messages := request_messages (system s) (messages s) |}
           (WEBUI_BASE_URL env +:+ "/api")
         :: events (await env AwRequest s)
         ++ events (choose_responseMessage s1)
         ++ events (await env AwMount s2)
         ++ events o;
       completion := completion o |}.
Proof.
  intros s1 s2 s3 o. unfold issue_and_stream. rewrite !bind_gets.
  rewrite (bind_outcome (emit _) _ s tt) by done.
  rewrite (bind_outcome (await env AwRequest) _ _ tt) by by rewrite await_outcome.
  cbn [emit final events]. fold s1.
  rewrite (bind_outcome choose_responseMessage _ _ tt)
    by by rewrite choose_responseMessage_outcome.
  assert (messages s1 = messages s) as Hms.
  { unfold s1. rewrite await_outcome. cbn. by destruct (cancel_clicked env AwRequest). }
  assert (final (choose_responseMessage s1) = s2) as ->.
  { rewrite choose_responseMessage_outcome. cbn. by rewrite Hms. }
  rewrite (bind_outcome (await env AwMount) _ _ tt) by by rewrite await_outcome.
  fold s3. cbn [final events completion].
  by destruct (response env) as [[[] chunks how]|].
Qed.
End Handler.

(** ** The precondition and the request *)

Lemma sample_resolved (res : option Response) (clicked : AwaitPoint → bool)
    (ms : list Turn) :
  resolved (sample_env res clicked) (sample_state ms).
Proof.
  split; [done|].
  exists {| Model.id := "llama3"; Model.name := "Llama 3" |}.
  split; [apply list_elem_of_here | done].
Qed.

Lemma ghost_unknown (res : option Response) (clicked : AwaitPoint → bool) (m : Model.t) :
  m ∈ models (sample_env res clicked) → Model.id m ≠ selectedModelId ghost_state.
Proof. intros Hin. apply list_elem_of_singleton in Hin as ->. done. Qed.

(** C9: when the selected model identifier is not empty and names no model
    of the known list, the handler sets the selected identifier to the empty
    string and returns: no request is issued and no notification is shown. *)
Theorem unknown_model_resets_selection (env : Env) (s : State) :
  selectedModelId s ≠ EmptyString →
  (∀ m, m ∈ models env → Model.id m ≠ selectedModelId s) →
  let o := chatCompletionHandler env s in
  final o = set_selectedModelId EmptyString s
  ∧ selectedModelId (final o) = EmptyString
  ∧ completion o = Normal tt
  ∧ requests (events o) = []
  ∧ toasts (events o) = []
  ∧ events o = [].
Proof. intros Hsel Hunknown o. subst o. by rewrite handler_unknown. Qed.

Lemma unknown_model_resets_selection_witness :
  selectedModelId ghost_state ≠ EmptyString
  ∧ (∀ m, m ∈ models (sample_env rejected never) → Model.id m ≠ selectedModelId ghost_state)
  ∧ let o := chatCompletionHandler (sample_env rejected never) ghost_state in
    final o = set_selectedModelId EmptyString ghost_state
    ∧ selectedModelId (final o) = EmptyString
    ∧ completion o = Normal tt
    ∧ requests (events o) = []
    ∧ toasts (events o) = []
    ∧ events o = [].
Proof.
  split; [done|]. split; [apply ghost_unknown|].
  apply (unknown_model_resets_selection (sample_env rejected never) ghost_state);
    [done | apply ghost_unknown].
Defined.

(** C3, as the code has it: when the selected model identifier is empty or
    names no known model, no request is issued and nothing is read; the
    notification "Please select a model." is shown, once, exactly when the
    identifier is empty, and not at all when it is non-empty but unknown. *)
Theorem precondition_gating (env : Env) (s : State) :
  ¬ resolved env s →
  let o := chatCompletionHandler env s in
  requests (events o) = []
  ∧ reads (events o) = 0
  ∧ toasts (events o)
    = if decide (selectedModelId s = EmptyString)
      then [i18n_t env "Please select a model."]
      else [].
Proof.
  intros Hnot o. subst o.
  destruct (unresolved_cases env s Hnot) as [Hsel|[Hsel Hunknown]].
  - rewrite handler_unselected by done. by destruct (decide _).
  - rewrite handler_unknown by done. by destruct (decide _).
Qed.

Lemma precondition_gating_witness :
  ¬ resolved (sample_env rejected never) unselected_state
  ∧ let o := chatCompletionHandler (sample_env rejected never) unselected_state in
    requests (events o) = []
    ∧ reads (events o) = 0
    ∧ toasts (events o) = ["Please select a model."].
Proof.
  assert (¬ resolved (sample_env rejected never) unselected_state) as Hnot.
  { by intros [Hsel _]. }
  split; [done|].
  apply (precondition_gating (sample_env rejected never) unselected_state Hnot).
Defined.

(** C3 as it is stated fails: with the identifier "ghost" selected and only
    "llama3" known, the handler shows no notification at all. *)
Lemma precondition_gating_counterexample :
  selectedModelId ghost_state ≠ EmptyString
  ∧ (∀ m, m ∈ models (sample_env rejected never) →
          Model.id m ≠ selectedModelId ghost_state)
  ∧ toasts (events (chatCompletionHandler (sample_env rejected never) ghost_state))
    ≠ [i18n_t (sample_env rejected never) "Please select a model."].
Proof. split; [done|]. split; [apply ghost_unknown | done]. Qed.

Section Issued.
Context (env : Env).

(** Past the request, nothing is requested and no notification is shown. *)
Lemma issue_and_stream_requests model s :
  requests (events (issue_and_stream env model s))
  = [(token env,
      {| Request.model := Model.id model; Request.stream := true;
         Request.messages := request_messages (system s) (messages s) |},
      WEBUI_BASE_URL env +:+ "/api")]
  ∧ toasts (events (issue_and_stream env model s)) = [].
Proof.
  rewrite issue_and_stream_outcome. cbn [events].
  set (s3 := final (await env AwMount _)).
  assert (Forall stream_event
            (events match response env with
                    | Some res => if ok res
                                  then read_loop env 0 (body res) (ending res) s3
                                  else ret tt s3
                    | None => ret tt s3
                    end)) as Hloop.
  { destruct (response env) as [[[] chunks how]|]; cbn [ok body ending]; try by constructor.
    apply read_loop_events. }
  apply stream_events_silent in Hloop as [Hreq Htoast].
  unfold requests, toasts in *.
  rewrite !await_outcome, choose_responseMessage_outcome. cbn [events].
  change (?e :: ?a ++ ?b ++ ?c ++ ?d) with ([e] ++ a ++ b ++ c ++ d).
  rewrite !omap_app, Hreq, Htoast.
  by destruct (cancel_clicked env AwRequest), (cancel_clicked env AwMount),
    (last_is_assistant _).
Qed.
End Issued.

(** C8: past the model precondition, exactly one request is issued; its
    body holds the selected model identifier, the streaming flag set, and the
    conversation in order, with the system turn in front exactly when the
    system text is not empty. *)
Theorem request_payload (env : Env) (s : State) :
  resolved env s →
  requests (events (chatCompletionHandler env s))
  = [(token env,
      {| Request.model := selectedModelId s;
         Request.stream := true;
         Request.messages :=
           if decide (system s = EmptyString) then messages s
           else {| role := "system"; content := system s |} :: messages s |},
      WEBUI_BASE_URL env +:+ "/api")].
Proof.
  intros Hres. destruct (handler_resolved env s Hres) as (model & Hid & ->).
  destruct (issue_and_stream_requests env model s) as [-> _].
  by rewrite Hid, request_messages_filtered.
Qed.

Lemma request_payload_witness :
  resolved (sample_env rejected never) (sample_state [user_says "Hi"])
  ∧ requests (events (chatCompletionHandler (sample_env rejected never)
                        (sample_state [user_says "Hi"])))
    = [("secret",
        {| Request.model := "llama3";
           Request.stream := true;
           Request.messages :=
             [ {| role := "system"; content := "Be brief." |}; user_says "Hi" ] |},
        "http://localhost:8080/api")].
Proof.
  split; [apply sample_resolved|].
  apply (request_payload (sample_env rejected never) (sample_state [user_says "Hi"])).
  apply sample_resolved.
Defined.

(** ** A response that is not ok *)

(** C6: when the response is missing or its ok flag is false, the reader is
    never read and nothing is parsed, the request is not issued again, and
    the conversation is left as it was when the response turn was chosen: an
    appended assistant turn stays empty. *)
Theorem non_ok_response_short_circuit (env : Env) (s : State) :
  resolved env s →
  (∀ res, response env = Some res → ok res = false) →
  let o := chatCompletionHandler env s in
  reads (events o) = 0
  ∧ parses (events o) = []
  ∧ aborts (events o) = []
  ∧ length (requests (events o)) = 1
  ∧ messages (final o)
    = if last_is_assistant (messages s) then messages s
      else messages s ++ [ {| role := "assistant"; content := EmptyString |} ].
Proof.
  intros Hres Hnok o. subst o.
  destruct (handler_resolved env s Hres) as (model & Hid & ->).
  destruct (issue_and_stream_requests env model s) as [Hreq _].
  rewrite Hreq. clear Hreq.
  rewrite issue_and_stream_outcome.
  rewrite !await_outcome, choose_responseMessage_outcome. cbn [events final].
  assert (∀ s3, match response env with
                | Some res =>
                    if ok res then read_loop env 0 (body res) (ending res) s3
                    else ret tt s3
                | None => ret tt s3
                end = ret tt s3) as Hskip.
  { intros s3. destruct (response env) as [res|] eqn:Hr; [|done].
    by rewrite (Hnok res eq_refl). }
  rewrite Hskip. unfold chosen.
  destruct (cancel_clicked env AwRequest), (cancel_clicked env AwMount);
    cbn [messages set_stopResponseFlag set_messages];
    by destruct (last_is_assistant (messages s)).
Qed.

Lemma non_ok_response_short_circuit_witness :
  resolved (sample_env rejected never) (sample_state [user_says "Hi"])
  ∧ (∀ res, response (sample_env rejected never) = Some res → ok res = false)
  ∧ let o := chatCompletionHandler (sample_env rejected never)
               (sample_state [user_says "Hi"]) in
    reads (events o) = 0
    ∧ parses (events o) = []
    ∧ aborts (events o) = []
    ∧ length (requests (events o)) = 1
    ∧ messages (final o)
      = [user_says "Hi"; {| role := "assistant"; content := EmptyString |}].
Proof.
  assert (∀ res, response (sample_env rejected never) = Some res → ok res = false)
    as Hnok.
  { intros res Hres. by injection Hres as <-. }
  split; [apply sample_resolved|]. split; [done|].
  apply (non_ok_response_short_circuit (sample_env rejected never)
           (sample_state [user_says "Hi"]) (sample_resolved _ _ _) Hnok).
Defined.

(** ** The content a stream leaves *)

Section Content.
Context (env : Env).

Lemma apply_retained c deltas :
  foldl apply_delta c deltas = c +:+ concatenation (retained c deltas).
Proof.
  revert c. induction deltas as [|v rest IH]; intros c; simpl.
  - by rewrite append_nil_r.
  - unfold apply_delta at 2. destruct (elided c v); [apply IH|].
    rewrite IH. simpl. by rewrite append_assoc.
Qed.

Lemma lines_content_fold c lines :
  lines_content env c lines = foldl apply_delta c (leading_deltas env lines).
Proof.
  revert c. induction lines as [|line rest IH]; intros c; simpl; [done|].
  destruct (classify env line); simpl; by rewrite ?IH.
Qed.

Lemma chunks_content_fold c chunks :
  chunks_content env c chunks
  = foldl apply_delta c (stream_deltas (leading_deltas env) chunks).
Proof.
  revert c. induction chunks as [|chunk rest IH]; intros c; simpl; [done|].
  by rewrite foldl_app, IH, lines_content_fold.
Qed.

Lemma chunks_content_app c chunks chunks' :
  chunks_content env c (chunks ++ chunks')
  = chunks_content env (chunks_content env c chunks) chunks'.
Proof. revert c. induction chunks as [|chunk rest IH]; intros c; simpl; [done | apply IH]. Qed.

Lemma errors_none chunks :
  (∀ chunk, chunk ∈ chunks → first_error env (split_newline chunk) = None) →
  omap (λ chunk, first_error env (split_newline chunk)) chunks = [].
Proof.
  induction chunks as [|chunk rest IH]; intros Hvalid; [done|].
  change (chunk :: rest) with ([chunk] ++ rest). rewrite omap_app.
  rewrite IH by (intros c Hin; by apply Hvalid, list_elem_of_further).
  simpl. by rewrite (Hvalid chunk (list_elem_of_here _ _)).
Qed.

(** A session that the user lets run to the end of the stream. *)
Lemma handler_streams s chunks :
  resolved env s → quiet env → stopResponseFlag s = false →
  response env = streaming chunks →
  let o := chatCompletionHandler env s in
  messages (final o)
  = with_content (chunks_content env (seed (messages s)) chunks) (chosen (messages s))
  ∧ completion o = Normal tt
  ∧ aborts (events o) = []
  ∧ reads (events o) = S (length chunks)
  ∧ logged_errors (events o)
    = omap (λ chunk, first_error env (split_newline chunk)) chunks.
Proof.
  intros Hres Hquiet Hflag Hresp o. subst o.
  destruct (handler_resolved env s Hres) as (model & Hid & ->).
  rewrite issue_and_stream_outcome. rewrite Hresp. cbn [streaming ok body ending].
  rewrite !await_outcome, choose_responseMessage_outcome, !Hquiet.
  cbn [final events completion].
  set (s2 := set_messages (chosen (messages s)) s).
  destruct (read_loop_quiet env 0 chunks Closes s2) as (Hm & Ha & Hr & He & Hc); [done..|].
  split; [by rewrite Hm|]. split; [done|].
  unfold aborts, reads, logged_errors in *.
  change (?e :: ?a ++ ?b) with ([e] ++ a ++ b).
  rewrite !omap_app, !length_app, Ha, Hr, He.
  by destruct (last_is_assistant (messages s)).
Qed.

Lemma final_content_streams s chunks :
  resolved env s → quiet env → stopResponseFlag s = false →
  response env = streaming chunks →
  final_content env s = chunks_content env (seed (messages s)) chunks.
Proof.
  intros Hres Hquiet Hflag Hresp. unfold final_content.
  destruct (handler_streams s chunks Hres Hquiet Hflag Hresp) as (-> & _).
  apply content_with_content, chosen_nonempty.
Qed.

(** A session that the user lets run ends as its reader does. *)
Lemma handler_ending s res :
  resolved env s → quiet env → stopResponseFlag s = false →
  response env = Some res → ok res = true →
  completion (chatCompletionHandler env s)
  = match ending res with
    | Closes => Normal tt
    | Rejects e => Throw e
    | Stalls => Pending
    end.
Proof.
  intros Hres Hquiet Hflag Hresp Hok.
  destruct (handler_resolved env s Hres) as (model & Hid & ->).
  rewrite issue_and_stream_outcome. rewrite Hresp, Hok.
  rewrite !await_outcome, !Hquiet. cbn [final completion].
  by destruct (read_loop_quiet env 0 (body res) (ending res)
                 (set_messages (chosen (messages s)) s)) as (_ & _ & _ & _ & ->).
Qed.
End Content.

Lemma never_quiet (res : option Response) : quiet (sample_env res never).
Proof. by intros p. Qed.

(** ** Behind [splitStream] *)

(** No piece of a split text holds a newline. *)
Lemma split_newline_pieces (text : string) :
  Forall (λ piece, split_newline piece = [piece]) (split_newline text).
Proof.
  induction text as [|c text IH]; [by constructor|]. simpl.
  destruct (Ascii.eqb c "010"%char) eqn:Hc; [by constructor|].
  destruct (split_newline text) as [|piece pieces]; [constructor; [|done]|].
  - simpl. by rewrite Hc.
  - apply Forall_cons in IH as [Hpiece Hpieces]. constructor; [|done].
    simpl. by rewrite Hc, Hpiece.
Qed.

Lemma drop_empty_tail_Forall (P : string → Prop) (pieces : list string) :
  Forall P pieces → Forall P (drop_empty_tail pieces).
Proof.
  induction 1 as [|piece rest Hpiece Hrest IH]; [done|].
  destruct rest as [|piece' rest].
  - simpl. destruct (decide (piece = EmptyString)); by repeat constructor.
  - change (drop_empty_tail (piece :: piece' :: rest))
      with (piece :: drop_empty_tail (piece' :: rest)).
    by constructor.
Qed.

(** Every value that the reader yields is one line. *)
Lemma splitStream_lines (delivered : list string) :
  Forall (λ value, split_newline value = [value]) (splitStream delivered).
Proof. apply drop_empty_tail_Forall, split_newline_pieces. Qed.

Section Split.
Context (env : Env).

Lemma valid_deltas_app lines lines' :
  valid_deltas env (lines ++ lines') = valid_deltas env lines ++ valid_deltas env lines'.
Proof.
  induction lines as [|line rest IH]; [done|]. simpl.
  destruct (classify env line); by rewrite IH.
Qed.

Lemma valid_deltas_drop_empty_tail pieces :
  valid_deltas env (drop_empty_tail pieces) = valid_deltas env pieces.
Proof.
  induction pieces as [|piece rest IH]; [done|].
  destruct rest as [|piece' rest].
  - simpl. by destruct (decide (piece = EmptyString)) as [->|].
  - change (drop_empty_tail (piece :: piece' :: rest))
      with (piece :: drop_empty_tail (piece' :: rest)).
    cbn [valid_deltas]. by rewrite IH.
Qed.

(** The valid lines of the reader's values are those of the text. *)
Lemma valid_deltas_splitStream delivered :
  valid_deltas env (splitStream delivered)
  = valid_deltas env (split_newline (concatenation delivered)).
Proof. apply valid_deltas_drop_empty_tail. Qed.

(** When each value is one line, the [catch] of a value is the [catch] of a
    line: a line that throws hides no other line. *)
Lemma stream_deltas_lines values :
  Forall (λ value, split_newline value = [value]) values →
  stream_deltas (leading_deltas env) values = valid_deltas env values.
Proof.
  induction 1 as [|value rest Hvalue _ IH]; [done|].
  simpl. rewrite Hvalue, IH. simpl. by destruct (classify env value).
Qed.

Lemma first_error_line value :
  split_newline value = [value] →
  first_error env (split_newline value)
  = match classify env value with
    | Malformed e => Some e
    | _ => None
    end.
Proof. intros ->. simpl. by destruct (classify env value). Qed.

Lemma errors_of_lines values :
  Forall (λ value, split_newline value = [value]) values →
  (∀ line e, line ∈ values → classify env line ≠ Malformed e) →
  omap (λ chunk, first_error env (split_newline chunk)) values = [].
Proof.
  intros Hlines Hvalid. apply errors_none. intros chunk Hin.
  rewrite first_error_line by by eapply Forall_forall in Hlines.
  pose proof (Hvalid chunk) as Hchunk.
  destruct (classify env chunk) as [| |e|v]; try done. by destruct (Hchunk e Hin).
Qed.

(** A session that the user lets run to the end of a stream that reaches
    the reader through [splitStream]. *)
Lemma final_content_split s delivered :
  resolved env s → quiet env → stopResponseFlag s = false →
  response env = streaming (splitStream delivered) →
  final_content env s
  = seed (messages s)
    +:+ concatenation
          (retained (seed (messages s))
             (valid_deltas env (split_newline (concatenation delivered)))).
Proof.
  intros Hres Hquiet Hflag Hresp.
  rewrite (final_content_streams env s _ Hres Hquiet Hflag Hresp).
  rewrite chunks_content_fold, apply_retained.
  by rewrite stream_deltas_lines, valid_deltas_splitStream by apply splitStream_lines.
Qed.
End Split.



(** ** A malformed line *)

Lemma classify_syntax_error (env : Env) (line : string) :
  line ≠ EmptyString → line ≠ sentinel →
  JSON_parse env (replace_data_prefix line) = None →
  classify env line = Malformed SyntaxError.
Proof.
  intros Hne Hns Hparse. unfold classify.
  destruct (decide (line = EmptyString)); [done|].
  destruct (decide (line = sentinel)); [done|]. by rewrite Hparse.
Qed.

(** C2: when one line of the stream is not JSON (and is not the terminate
    sentinel) and no other line is malformed, the failure is caught and
    logged, once; nothing escapes the handler, the loop goes on to read the
    stream to its end, and the response turn, which started empty, ends with
    the concatenation of the fragments of all the valid lines: those in
    front of the malformed line and those behind it, wherever the transport
    cut the stream, so also a valid line that was delivered in one piece
    with the malformed line in front of it. *)
Theorem malformed_line_tolerance (env : Env) (s : State) (delivered : list string)
    (before : list string) (bad : string) (rest : list string) :
  resolved env s → quiet env → stopResponseFlag s = false →
  seed (messages s) = EmptyString →
  response env = streaming (splitStream delivered) →
  splitStream delivered = before ++ bad :: rest →
  bad ≠ EmptyString → bad ≠ sentinel →
  JSON_parse env (replace_data_prefix bad) = None →
  (∀ line e, line ∈ before ++ rest → classify env line ≠ Malformed e) →
  let o := chatCompletionHandler env s in
  completion o = Normal tt
  ∧ logged_errors (events o) = [SyntaxError]
  ∧ aborts (events o) = []
  ∧ reads (events o) = S (length (before ++ bad :: rest))
  ∧ valid_deltas env (split_newline (concatenation delivered))
    = valid_deltas env before ++ valid_deltas env rest
  ∧ responseMessage_content (messages (final o))
    = concatenation
        (retained EmptyString (valid_deltas env before ++ valid_deltas env rest)).
Proof.
  intros Hres Hquiet Hflag Hseed Hresp Hsplit Hne Hns Hparse Hothers o. subst o.
  pose proof (classify_syntax_error env bad Hne Hns Hparse) as Hbad.
  pose proof (splitStream_lines delivered) as Hlines. rewrite Hsplit in Hlines.
  apply Forall_app in Hlines as [Hbefore Hrest].
  apply Forall_cons in Hrest as [Hline Hrest].
  assert (valid_deltas env (split_newline (concatenation delivered))
          = valid_deltas env before ++ valid_deltas env rest) as Hdeltas.
  { rewrite <- valid_deltas_splitStream, Hsplit, valid_deltas_app.
    cbn [valid_deltas]. by rewrite Hbad. }
  destruct (handler_streams env s _ Hres Hquiet Hflag Hresp) as (_ & Hc & Ha & Hr & He).
  rewrite Hsplit in Hr, He.
  split; [done|]. split; [|split; [done|split; [done|split; [done|]]]].
  - rewrite He. change (bad :: rest) with ([bad] ++ rest). rewrite !omap_app.
    rewrite (errors_of_lines env before), (errors_of_lines env rest);
      try done; try (intros line e Hin; apply Hothers, elem_of_app; auto).
    cbn [omap list_omap app]. rewrite first_error_line by done. by rewrite Hbad.
  - fold (final_content env s).
    rewrite (final_content_split env s delivered) by done. by rewrite Hseed, Hdeltas.
Qed.

Lemma malformed_line_tolerance_witness :
  let env := sample_env (streaming (splitStream hello_oops_world)) never in
  let s := sample_state [user_says "Hi"] in
  resolved env s ∧ quiet env ∧ stopResponseFlag s = false
  ∧ seed (messages s) = EmptyString
  ∧ splitStream hello_oops_world = [event_line "Hello"] ++ "oops" :: [event_line "World"]
  ∧ JSON_parse env (replace_data_prefix "oops") = None
  ∧ concatenation
      (retained EmptyString
         (valid_deltas env [event_line "Hello"] ++ valid_deltas env [event_line "World"]))
    = "HelloWorld"
  ∧ let o := chatCompletionHandler env s in
    completion o = Normal tt
    ∧ logged_errors (events o) = [SyntaxError]
    ∧ aborts (events o) = []
    ∧ reads (events o) = 4
    ∧ valid_deltas env (split_newline (concatenation hello_oops_world))
      = valid_deltas env [event_line "Hello"] ++ valid_deltas env [event_line "World"]
    ∧ responseMessage_content (messages (final o))
      = concatenation
          (retained EmptyString
             (valid_deltas env [event_line "Hello"]
              ++ valid_deltas env [event_line "World"])).
Proof.
  cbn zeta. split; [apply sample_resolved|]. split; [apply never_quiet|].
  split; [done|]. split; [done|]. split; [by vm_compute|]. split; [done|].
  split; [by vm_compute|].
  apply (malformed_line_tolerance
           (sample_env (streaming (splitStream hello_oops_world)) never)
           (sample_state [user_says "Hi"]) hello_oops_world
           [event_line "Hello"] "oops" [event_line "World"]);
    [apply sample_resolved | apply never_quiet | done | done | done | by vm_compute
    | done | done | done |].
  intros line e Hin.
  apply elem_of_cons in Hin as [->|Hin]; [done|].
  apply list_elem_of_singleton in Hin as ->. done.
Defined.

(** ** The terminate sentinel *)

Section Sentinel.
Context (env : Env).

Lemma process_line_terminate n i s :
  process_line env n i sentinel s
  = {| final := s;
       events := [ELog (LogText sentinel); ERender (messages s)];
       completion := Normal tt |}.
Proof.
  unfold process_line.
  destruct (decide (sentinel = EmptyString)); [done|].
  by destruct (decide (sentinel = sentinel)).
Qed.

Lemma process_chunk_terminate n s :
  process_chunk env n sentinel s
  = {| final := s;
       events := [ELog (LogText sentinel); ERender (messages s)];
       completion := Normal tt |}.
Proof.
  unfold process_chunk, try_catch.
  change (split_newline sentinel) with [sentinel]. cbn [for_lines].
  rewrite (bind_outcome _ _ s tt) by by rewrite process_line_terminate.
  by rewrite process_line_terminate.
Qed.

(** However the user clicks, a stream that is the sentinel alone changes
    no turn, reaches no parser and logs no error. *)
Lemma read_loop_terminate_only n s :
  let o := read_loop env n [sentinel] Closes s in
  messages (final o) = messages s
  ∧ parses (events o) = []
  ∧ logged_errors (events o) = [].
Proof.
  cbn zeta.
  destruct (cancel_clicked env (AwRead n)) eqn:Hclick;
    [by rewrite read_loop_clicked|].
  destruct (stopResponseFlag s) eqn:Hflag; [by rewrite read_loop_stopped|].
  rewrite read_loop_step by done. rewrite process_chunk_terminate.
  cbn [final events].
  destruct (cancel_clicked env (AwRead (S n))) eqn:Hclick';
    [by rewrite read_loop_clicked|].
  by rewrite read_loop_done.
Qed.
End Sentinel.

(** C7: a line equal to "data: [DONE]" is logged and rendered and nothing
    else: no content is appended and the JSON parser is not called.  A stream
    that is this line alone leaves the response turn, which started empty,
    empty, with no call of the parser and no error logged, whatever the user
    clicks. *)
Theorem terminate_sentinel_noop (env : Env) (s : State) :
  resolved env s →
  seed (messages s) = EmptyString →
  response env = streaming [sentinel] →
  (∀ n i s', process_line env n i sentinel s'
             = {| final := s';
                  events := [ELog (LogText sentinel); ERender (messages s')];
                  completion := Normal tt |})
  ∧ let o := chatCompletionHandler env s in
    messages (final o) = chosen (messages s)
    ∧ responseMessage_content (messages (final o)) = EmptyString
    ∧ parses (events o) = []
    ∧ logged_errors (events o) = [].
Proof.
  intros Hres Hseed Hresp. split; [apply process_line_terminate|]. cbn zeta.
  destruct (handler_resolved env s Hres) as (model & Hid & ->).
  rewrite issue_and_stream_outcome, Hresp. cbn [streaming ok body ending final events].
  set (s3 := final (await env AwMount _)).
  assert (messages s3 = chosen (messages s)) as Hs3.
  { unfold s3. rewrite !await_outcome. cbn [final].
    by destruct (cancel_clicked env AwMount). }
  destruct (read_loop_terminate_only env 0 s3) as (Hm & Hp & He).
  rewrite Hm, Hs3. split; [done|]. split; [done|].
  unfold parses, logged_errors in *.
  rewrite !await_outcome, choose_responseMessage_outcome. cbn [events final].
  change (?e :: ?a ++ ?b ++ ?c ++ ?d) with ([e] ++ a ++ b ++ c ++ d).
  rewrite !omap_app, Hp, He.
  destruct (cancel_clicked env AwRequest), (cancel_clicked env AwMount);
    cbn [messages set_stopResponseFlag set_messages];
    by destruct (last_is_assistant (messages s)).
Qed.

Lemma terminate_sentinel_noop_witness :
  let env := sample_env (streaming [sentinel]) never in
  let s := sample_state [user_says "Hi"] in
  resolved env s
  ∧ seed (messages s) = EmptyString
  ∧ response env = streaming [sentinel]
  ∧ let o := chatCompletionHandler env s in
    messages (final o) = [user_says "Hi"; {| role := "assistant"; content := EmptyString |}]
    ∧ responseMessage_content (messages (final o)) = EmptyString
    ∧ parses (events o) = []
    ∧ logged_errors (events o) = [].
Proof.
  cbn zeta. split; [apply sample_resolved|]. split; [done|]. split; [done|].
  apply (terminate_sentinel_noop (sample_env (streaming [sentinel]) never)
           (sample_state [user_says "Hi"]));
    [apply sample_resolved | done | done].
Defined.

(** ** The leading newline *)

Section LeadingNewline.
Context (env : Env).

Lemma lines_content_with_body body c lines :
  lines_content (with_body body env) c lines = lines_content env c lines.
Proof.
  revert c. induction lines as [|line rest IH]; intros c; simpl; [done|].
  change (classify (with_body body env) line) with (classify env line).
  destruct (classify env line); by rewrite ?IH.
Qed.

Lemma chunks_content_with_body body c chunks :
  chunks_content (with_body body env) c chunks = chunks_content env c chunks.
Proof.
  revert c. induction chunks as [|chunk rest IH]; intros c; simpl; [done|].
  by rewrite IH, lines_content_with_body.
Qed.

Lemma final_content_with_body s chunks :
  resolved env s → quiet env → stopResponseFlag s = false →
  final_content (with_body chunks env) s = chunks_content env (seed (messages s)) chunks.
Proof.
  intros Hres Hquiet Hflag.
  rewrite (final_content_streams (with_body chunks env) s chunks) by done.
  apply chunks_content_with_body.
Qed.

Lemma chunks_content_extends c chunks : ∃ u, chunks_content env c chunks = c +:+ u.
Proof. rewrite chunks_content_fold, apply_retained. by eexists. Qed.

(** One line that carries the fragment "\n". *)
Lemma process_line_newline n i line s :
  classify env line = Delta (Some (JStr newline)) →
  messages (final (process_line env n i line s)) = messages s
  ↔ responseMessage_content (messages s) = EmptyString.
Proof.
  intros Hkind. rewrite process_line_messages. simpl. rewrite Hkind.
  unfold apply_delta, elided, fragment. cbn [loose_eq_newline fragment_text js_to_string].
  rewrite (bool_decide_eq_true_2 (newline = newline)) by done.
  case_bool_decide as Hc; cbn [andb].
  - by rewrite with_content_same.
  - split; [|done]. intros Heq.
    destruct (decide (messages s = [])) as [Hnil|Hne]; [by rewrite Hnil in Hc|].
    apply (f_equal responseMessage_content) in Heq.
    rewrite content_with_content in Heq by done.
    by apply append_newline_ne in Heq.
Qed.
End LeadingNewline.

(** C5: a line whose fragment is exactly one newline leaves the conversation
    as it is if and only if the response turn's content is empty when the
    line is processed.  In a session: if the content is still empty when the
    newline arrives, the session ends with the content it would have had
    without that chunk; if content is there, that content followed by the
    newline is the beginning of the final content. *)
Theorem leading_newline_suppression (env : Env) (s : State)
    (before : list string) (chunk : string) (rest : list string) :
  resolved env s → quiet env → stopResponseFlag s = false →
  response env = streaming (before ++ chunk :: rest) →
  split_newline chunk = [chunk] →
  classify env chunk = Delta (Some (JStr newline)) →
  (∀ n i s', messages (final (process_line env n i chunk s')) = messages s'
             ↔ responseMessage_content (messages s') = EmptyString)
  ∧ let c := final_content (with_body before env) s in
    (c = EmptyString → final_content env s = final_content (with_body (before ++ rest) env) s)
    ∧ (c ≠ EmptyString → ∃ u, final_content env s = c +:+ newline +:+ u).
Proof.
  intros Hres Hquiet Hflag Hresp Hsplit Hkind.
  split; [intros; by apply process_line_newline|].
  cbn zeta. rewrite !final_content_with_body by done.
  rewrite (final_content_streams env s _ Hres Hquiet Hflag Hresp).
  rewrite !chunks_content_app. simpl. rewrite Hsplit. simpl. rewrite Hkind.
  set (c := chunks_content env (seed (messages s)) before).
  unfold apply_delta, elided, fragment. cbn [loose_eq_newline fragment_text js_to_string].
  rewrite (bool_decide_eq_true_2 (newline = newline)) by done.
  split; intros Hc.
  - by rewrite (bool_decide_eq_true_2 _ Hc).
  - rewrite (bool_decide_eq_false_2 _ Hc). cbn [andb].
    destruct (chunks_content_extends env (c +:+ newline) rest) as [u ->].
    exists u. apply append_assoc.
Qed.

Lemma leading_newline_suppression_witness :
  let env := sample_env (streaming ([newline_event_line; event_line "Hello"]
                                    ++ newline_event_line :: [event_line "World"])) never in
  let s := sample_state [user_says "Hi"] in
  resolved env s ∧ quiet env ∧ stopResponseFlag s = false
  ∧ split_newline newline_event_line = [newline_event_line]
  ∧ classify env newline_event_line = Delta (Some (JStr newline))
  ∧ final_content (with_body [newline_event_line; event_line "Hello"] env) s = "Hello"
  ∧ ∃ u, final_content env s = "Hello" +:+ newline +:+ u.
Proof.
  cbn zeta. split; [apply sample_resolved|]. split; [apply never_quiet|].
  split; [done|]. split; [done|]. split; [done|]. split; [by vm_compute|].
  refine (proj2 (proj2 (leading_newline_suppression
           (sample_env (streaming ([newline_event_line; event_line "Hello"]
                                   ++ newline_event_line :: [event_line "World"])) never)
           (sample_state [user_says "Hi"])
           [newline_event_line; event_line "Hello"] newline_event_line
           [event_line "World"] _ _ _ _ _ _)) _);
    [apply sample_resolved | apply never_quiet | done | done | done | done
    | by vm_compute].
Defined.

(** ** Cancellation *)

Section Cancellation.
Context (env : Env).

(** The click lands while the loop waits for the read that follows the
    chunks [processed]; clicks during the ticks of the last of these chunks
    are left free. *)
Lemma read_loop_cancelled n processed pending s :
  processed = [] ∨ stopResponseFlag s = false →
  (∀ k, k < length processed → cancel_clicked env (AwRead (n + k)) = false) →
  (∀ k j, S k < length processed → cancel_clicked env (AwAppend (n + k) j) = false) →
  cancel_clicked env (AwRead (n + length processed)) = true →
  let o := read_loop env n (processed ++ pending) Closes s in
  messages (final o)
  = with_content (chunks_content env (responseMessage_content (messages s)) processed)
                 (messages s)
  ∧ stopResponseFlag (final o) = true
  ∧ aborts (events o) = [abort_reason]
  ∧ reads (events o) = S (length processed).
Proof.
  revert n s. induction processed as [|value rest IH]; intros n s Hflag Hread Happend Hclick.
  - cbn zeta. simpl in Hclick. rewrite Nat.add_0_r in Hclick.
    rewrite read_loop_clicked by done. cbn. by rewrite with_content_same.
  - destruct Hflag as [|Hflag]; [done|]. cbn zeta.
    change ((value :: rest) ++ pending) with (value :: rest ++ pending).
    assert (cancel_clicked env (AwRead n) = false) as Hread0.
    { rewrite <- (Nat.add_0_r n). apply Hread. simpl. lia. }
    rewrite read_loop_step by done. cbn [final events].
    set (s1 := final (process_chunk env n value s)).
    destruct (IH (S n) s1) as (Hm & Hf & Ha & Hr).
    + destruct rest as [|value' rest']; [by left|]. right.
      unfold s1. rewrite process_chunk_flag; [done|].
      intros j. rewrite <- (Nat.add_0_r n). apply Happend. simpl. lia.
    + intros k Hk. replace (S n + k) with (n + S k) by lia. apply Hread. simpl. lia.
    + intros k j Hk. replace (S n + k) with (n + S k) by lia. apply Happend. simpl. lia.
    + replace (S n + length rest) with (n + length (value :: rest)) by (simpl; lia).
      done.
    + destruct (line_events_silent _ (process_chunk_events env n value s)) as [Hca Hcr].
      split; [|split; [done|split]].
      * rewrite Hm. unfold s1. rewrite process_chunk_messages, with_content_idem.
        destruct (decide (messages s = [])) as [->|Hne]; [done|].
        by rewrite content_with_content.
      * unfold aborts in *.
        change (ERead :: ?a ++ EScroll :: ?b) with ([ERead] ++ a ++ [EScroll] ++ b).
        by rewrite !omap_app, Ha, Hca.
      * unfold reads in *.
        change (ERead :: ?a ++ EScroll :: ?b) with ([ERead] ++ a ++ [EScroll] ++ b).
        rewrite !omap_app, !length_app, Hr, Hcr. simpl. lia.
Qed.
End Cancellation.

(** C4: when the Cancel click lands after the chunks [processed] and while
    the loop waits for the next read, with no click before the last of these
    chunks is in hand, the loop leaves through the abort: the response turn
    holds what the chunks [processed] give and nothing of the chunks that
    follow, and the cancellation handle is called once, with the reason
    "User: Stop Response".  The flag is read once per chunk: a chunk in hand
    is applied whole and does not abort, whatever is clicked meanwhile. *)
Theorem cancellation_boundary (env : Env) (s : State) (processed pending : list string) :
  resolved env s → stopResponseFlag s = false →
  response env = streaming (processed ++ pending) →
  cancel_clicked env AwRequest = false →
  cancel_clicked env AwMount = false →
  (∀ k, k < length processed → cancel_clicked env (AwRead k) = false) →
  (∀ k j, S k < length processed → cancel_clicked env (AwAppend k j) = false) →
  cancel_clicked env (AwRead (length processed)) = true →
  let o := chatCompletionHandler env s in
  (responseMessage_content (messages (final o))
   = chunks_content env (seed (messages s)) processed
   ∧ messages (final o)
     = with_content (chunks_content env (seed (messages s)) processed)
                    (chosen (messages s))
   ∧ aborts (events o) = ["User: Stop Response"]
   ∧ reads (events o) = S (length processed)
   ∧ completion o = Normal tt)
  ∧ (∀ n value s',
       messages (final (process_chunk env n value s'))
       = with_content (lines_content env (responseMessage_content (messages s'))
                         (split_newline value))
                      (messages s')
       ∧ aborts (events (process_chunk env n value s')) = []).
Proof.
  intros Hres Hflag Hresp Hreq Hmount Hread Happend Hclick. cbn zeta.
  split.
  2: { intros n value s'. split; [apply process_chunk_messages|].
       apply line_events_silent, process_chunk_events. }
  destruct (handler_resolved env s Hres) as (model & Hid & ->).
  rewrite issue_and_stream_outcome, Hresp. cbn [streaming ok body ending final events completion].
  rewrite !await_outcome, choose_responseMessage_outcome, Hreq, Hmount.
  cbn [final events].
  set (s2 := set_messages (chosen (messages s)) s).
  destruct (read_loop_cancelled env 0 processed pending s2) as (Hm & _ & Ha & Hr);
    [by right | done | done | done |].
  rewrite Hm. cbn [s2 messages set_messages]. fold (seed (messages s)).
  split; [apply content_with_content, chosen_nonempty|]. split; [done|].
  split; [|split; [|apply read_loop_completion]].
  - unfold aborts in *. change (?e :: ?a ++ ?b) with ([e] ++ a ++ b).
    rewrite !omap_app, Ha. by destruct (last_is_assistant (messages s)).
  - unfold reads in *. change (?e :: ?a ++ ?b) with ([e] ++ a ++ b).
    rewrite !omap_app, !length_app, Hr. by destruct (last_is_assistant (messages s)).
Qed.

Lemma cancellation_boundary_witness :
  let env := sample_env (streaming ([event_line "Hello"] ++ [event_line "World"]))
               cancel_after_first in
  let s := sample_state [user_says "Hi"] in
  resolved env s ∧ stopResponseFlag s = false
  ∧ cancel_clicked env AwRequest = false
  ∧ cancel_clicked env AwMount = false
  ∧ (∀ k, k < 1 → cancel_clicked env (AwRead k) = false)
  ∧ (∀ k j, S k < 1 → cancel_clicked env (AwAppend k j) = false)
  ∧ cancel_clicked env (AwRead 1) = true
  ∧ let o := chatCompletionHandler env s in
    responseMessage_content (messages (final o)) = "Hello"
    ∧ messages (final o) = [user_says "Hi"; {| role := "assistant"; content := "Hello" |}]
    ∧ aborts (events o) = ["User: Stop Response"]
    ∧ reads (events o) = 2
    ∧ completion o = Normal tt.
Proof.
  cbn zeta.
  assert (∀ k, k < 1 → cancel_after_first (AwRead k) = false) as Hread.
  { intros [|k] Hk; [done | lia]. }
  assert (∀ k j, S k < 1 → cancel_after_first (AwAppend k j) = false) as Happend.
  { intros k j Hk. lia. }
  split; [apply sample_resolved|]. split; [done|]. split; [done|]. split; [done|].
  split; [done|]. split; [done|]. split; [done|].
  apply (cancellation_boundary
           (sample_env (streaming ([event_line "Hello"] ++ [event_line "World"]))
                       cancel_after_first)
           (sample_state [user_says "Hi"]) [event_line "Hello"] [event_line "World"]
           (sample_resolved _ _ _) eq_refl eq_refl eq_refl eq_refl Hread Happend eq_refl).
Defined.

(** ** The conversation over a session *)

Lemma ascending_all (m : list Turn) (timeline : list (list Turn)) (m' : list Turn) :
  ascending m timeline → m' ∈ timeline → extends m m'.
Proof.
  revert m. induction timeline as [|m1 rest IH]; intros m Hasc Hin.
  - by apply elem_of_nil in Hin.
  - destruct Hasc as [H1 Hrest]. apply elem_of_cons in Hin as [->|Hin]; [done|].
    eapply extends_trans; [done | by apply IH].
Qed.

Lemma ascending_pairwise (m : list Turn) (timeline : list (list Turn)) :
  ascending m timeline →
  ∀ i j m1 m2, i ≤ j →
    (m :: timeline) !! i = Some m1 → (m :: timeline) !! j = Some m2 → extends m1 m2.
Proof.
  revert m. induction timeline as [|m' rest IH]; intros m Hasc i j m1 m2 Hij H1 H2.
  - destruct i, j; simplify_eq/=; try lia. apply extends_refl.
  - destruct i as [|i].
    + injection H1 as <-. destruct j as [|j]; [injection H2 as <-; apply extends_refl|].
      apply (ascending_all m (m' :: rest) m2 Hasc).
      apply list_elem_of_lookup. by exists j.
    + destruct j as [|j]; [lia|]. destruct Hasc as [_ Hrest].
      apply (IH m' Hrest i j); [lia | done | done].
Qed.

Lemma extends_grows (m1 m2 : list Turn) : m1 ≠ [] → extends m1 m2 → grows m1 m2.
Proof.
  intros Hne [u ->]. destruct (nonempty_snoc m1 Hne) as (others & t & ->).
  exists others, t, u. by rewrite update_last_snoc.
Qed.

Lemma extends_nonempty (m1 m2 : list Turn) : m1 ≠ [] → extends m1 m2 → m2 ≠ [].
Proof.
  intros Hne [u ->]. destruct (nonempty_snoc m1 Hne) as (others & t & ->).
  rewrite update_last_snoc. by destruct others.
Qed.

Lemma chosen_response_turn (ms : list Turn) :
  ∃ others t,
    role t = "assistant"
    ∧ chosen ms = others ++ [t]
    ∧ (ms = others ++ [t] ∨ (ms = others ∧ content t = EmptyString)).
Proof.
  unfold chosen, last_is_assistant. case_bool_decide as Hlast.
  - destruct (last ms) as [t|] eqn:Ht; [|done].
    apply last_Some in Ht as [others ->]. exists others, t.
    split; [by injection Hlast | split; [done | by left]].
  - exists ms, {| role := "assistant"; content := EmptyString |}.
    split; [done | split; [done | by right]].
Qed.

Section Timeline.
Context (env : Env).

Lemma issue_and_stream_ascending model s :
  let o := issue_and_stream env model s in
  ascending (chosen (messages s)) (renders (events o) ++ [messages (final o)]).
Proof.
  cbn zeta. rewrite issue_and_stream_outcome. cbn [final events].
  set (s3 := final (await env AwMount _)).
  assert (messages s3 = chosen (messages s)) as Hs3.
  { unfold s3. rewrite !await_outcome. cbn [final].
    by destruct (cancel_clicked env AwMount). }
  set (o := match response env with
            | Some res => if ok res then read_loop env 0 (body res) (ending res) s3 else ret tt s3
            | None => ret tt s3
            end).
  assert (ascends s3 (events o) (final o)) as Hloop.
  { unfold o. destruct (response env) as [[[] chunks how]|]; cbn [ok body ending];
      try apply (comp_nil (R := ascends)).
    apply read_loop_ascends. }
  unfold ascends in Hloop. rewrite Hs3 in Hloop.
  change (?e :: ?a ++ ?b ++ ?c ++ ?d) with ([e] ++ a ++ b ++ c ++ d).
  rewrite !renders_app, !await_outcome, choose_responseMessage_outcome.
  cbn [events final].
  destruct (cancel_clicked env AwRequest), (cancel_clicked env AwMount);
    cbn [messages set_stopResponseFlag];
    destruct (last_is_assistant (messages s)); cbn [renders omap app]; try done.
  all: split; [apply extends_refl | done].
Qed.
End Timeline.

(** C10: over a session, the conversation as it is rendered and as it is
    left keeps every turn but the response turn, which is its last one: each
    snapshot is the turns in front of the response turn, unchanged, followed
    by an assistant turn whose content is the starting content extended at
    its end, and of two snapshots the later one extends the content of the
    earlier one.  When the model precondition fails, the conversation is not
    touched and not rendered. *)
Theorem conversation_only_grows (env : Env) (s : State) :
  let o := chatCompletionHandler env s in
  let timeline := chosen (messages s) :: renders (events o) ++ [messages (final o)] in
  (¬ resolved env s → renders (events o) = [] ∧ messages (final o) = messages s)
  ∧ (resolved env s →
     ∃ others t,
       role t = "assistant"
       ∧ (messages s = others ++ [t] ∨ (messages s = others ∧ content t = EmptyString))
       ∧ ∀ m, m ∈ timeline →
           ∃ u, m = others ++ [ {| role := "assistant"; content := content t +:+ u |} ])
  ∧ (resolved env s →
     ∀ i j m1 m2, i ≤ j →
       timeline !! i = Some m1 → timeline !! j = Some m2 → grows m1 m2).
Proof.
  cbn zeta. split; [|split].
  - intros Hnot. destruct (unresolved_cases env s Hnot) as [Hsel|[Hsel Hunknown]].
    + by rewrite handler_unselected.
    + by rewrite handler_unknown.
  - intros Hres.
    destruct (handler_resolved env s Hres) as (model & Hid & ->).
    pose proof (issue_and_stream_ascending env model s) as Hasc. cbn zeta in Hasc.
    destruct (chosen_response_turn (messages s)) as (others & t & Hrole & Hchosen & Hms).
    exists others, t. split; [done|]. split; [done|].
    intros m Hin.
    assert (extends (chosen (messages s)) m) as [u ->].
    { apply elem_of_cons in Hin as [->|Hin]; [apply extends_refl|].
      by eapply ascending_all. }
    exists u. rewrite Hchosen, update_last_snoc. unfold append_content. by rewrite Hrole.
  - intros Hres i j m1 m2 Hij H1 H2.
    destruct (handler_resolved env s Hres) as (model & Hid & Heq).
    rewrite Heq in H1, H2.
    pose proof (issue_and_stream_ascending env model s) as Hasc. cbn zeta in Hasc.
    apply extends_grows; [|by eapply (ascending_pairwise _ _ Hasc i j)].
    eapply (extends_nonempty (chosen (messages s))); [apply chosen_nonempty|].
    by eapply (ascending_pairwise _ _ Hasc 0 i); [lia | | ].
Qed.

Lemma conversation_only_grows_witness :
  let env := sample_env (streaming hello_world_stream) never in
  let s := sample_state [user_says "Hi"] in
  let o := chatCompletionHandler env s in
  let timeline := chosen (messages s) :: renders (events o) ++ [messages (final o)] in
  resolved env s
  ∧ 2 ≤ 3
  ∧ timeline !! 2 = Some [user_says "Hi"; {| role := "assistant"; content := "Hello" |}]
  ∧ timeline !! 3 = Some [user_says "Hi"; {| role := "assistant"; content := "HelloWorld" |}]
  ∧ grows [user_says "Hi"; {| role := "assistant"; content := "Hello" |}]
          [user_says "Hi"; {| role := "assistant"; content := "HelloWorld" |}].
Proof.
  cbn zeta. split; [apply sample_resolved|]. split; [lia|].
  split; [by vm_compute|]. split; [by vm_compute|].
  refine (proj2 (proj2 (conversation_only_grows
                           (sample_env (streaming hello_world_stream) never)
                           (sample_state [user_says "Hi"])))
            (sample_resolved _ _ _) 2 3 _ _ _ _ _);
    [lia | by vm_compute | by vm_compute].
Defined.

(** ** The Add and Run buttons *)

Lemma ui_bind_outcome {A B} (m : Ui A) (k : A → Ui B) (p : Page.t) (a : A) :
  result (m p) = Normal a →
  ui_bind m k p
  = {| page := page (k a (page (m p)));
       emitted := emitted (m p) ++ emitted (k a (page (m p)));
       result := result (k a (page (m p))) |}.
Proof. intros H. unfold ui_bind. by rewrite H. Qed.

Lemma ui_bind_thrown {A B} (m : Ui A) (k : A → Ui B) (p : Page.t) (e : Error) :
  result (m p) = Throw e →
  ui_bind m k p = {| page := page (m p); emitted := emitted (m p); result := Throw e |}.
Proof. intros H. unfold ui_bind. by rewrite H. Qed.

Lemma ui_bind_pending {A B} (m : Ui A) (k : A → Ui B) (p : Page.t) :
  result (m p) = Pending →
  ui_bind m k p = {| page := page (m p); emitted := emitted (m p); result := Pending |}.
Proof. intros H. unfold ui_bind. by rewrite H. Qed.

Lemma ui_bind_gets {A B} (f : Page.t → A) (k : A → Ui B) (p : Page.t) :
  ui_bind (ui_gets f) k p = k (f p) p.
Proof. unfold ui_bind, ui_gets, ui_ret. cbn. by destruct (k (f p) p). Qed.

Lemma addHandler_outcome (p : Page.t) :
  addHandler p
  = if decide (Page.message p = EmptyString)
    then {| page := p; emitted := []; result := Normal tt |}
    else
      let turn := {| role := Page.role p; content := Page.message p |} in
      {| page := set_message EmptyString (set_state (push_turn turn (Page.state p)) p);
         emitted := [ERender (messages (Page.state p) ++ [turn]); EScroll];
         result := Normal tt |}.
Proof.
  unfold addHandler. rewrite ui_bind_gets.
  destruct (decide (Page.message p = EmptyString)); [done|].
  rewrite ui_bind_gets. destruct p as [[sel sys ms flag] r msg l]. reflexivity.
Qed.

Lemma resolved_dec (env : Env) (s : State) : resolved env s ∨ ¬ resolved env s.
Proof.
  destruct (decide (selectedModelId s = EmptyString)) as [Hsel|Hsel].
  { right. by intros [Hne _]. }
  destruct (List.find (λ m, bool_decide (Model.id m = selectedModelId s)) (models env))
    as [model|] eqn:Hfind.
  - left. split; [done|]. exists model. apply find_some in Hfind as [Hin Hdec].
    split; [by apply list_elem_of_In | by apply bool_decide_eq_true in Hdec].
  - right. intros (_ & m & Hin & Hid). apply list_elem_of_In in Hin.
    pose proof (find_none _ _ Hfind m Hin) as Hdec. by apply bool_decide_eq_false in Hdec.
Qed.

Lemma issue_and_stream_completion (env : Env) (model : Model.t) (s : State) :
  reader_closes env → completion (issue_and_stream env model s) = Normal tt.
Proof.
  intros Hcloses. rewrite issue_and_stream_outcome. cbn [completion].
  destruct (response env) as [[[] chunks how]|] eqn:Hresp; cbn [ok body ending]; try done.
  pose proof (Hcloses _ Hresp eq_refl) as Hhow. cbn in Hhow. subst how.
  apply read_loop_completion.
Qed.

(** When the reader closes, the handler returns. *)
Lemma handler_completion (env : Env) (s : State) :
  reader_closes env → completion (chatCompletionHandler env s) = Normal tt.
Proof.
  intros Hcloses. destruct (resolved_dec env s) as [Hres|Hnot].
  - destruct (handler_resolved env s Hres) as (model & _ & ->).
    by apply issue_and_stream_completion.
  - destruct (unresolved_cases env s Hnot) as [Hsel|[Hsel Hunknown]].
    + by rewrite handler_unselected.
    + by rewrite handler_unknown.
Qed.

Lemma streaming_closes (env : Env) (chunks : list string) :
  response env = streaming chunks → reader_closes env.
Proof. intros Hresp res Hres _. rewrite Hresp in Hres. by injection Hres as <-. Qed.

Lemma submitHandler_unselected (env : Env) (p : Page.t) :
  selectedModelId (Page.state p) = EmptyString →
  submitHandler env p = {| page := p; emitted := []; result := Normal tt |}.
Proof.
  intros Hsel. unfold submitHandler. rewrite ui_bind_gets.
  by destruct (decide (selectedModelId (Page.state p) = EmptyString)).
Qed.

(** Run with a model selected: what follows the handler in [submitHandler]
    runs only if the handler returns. *)
Lemma submitHandler_run (env : Env) (p : Page.t) :
  selectedModelId (Page.state p) ≠ EmptyString →
  let p1 := page (addHandler p) in
  let o := chatCompletionHandler env (Page.state p1) in
  submitHandler env p
  = {| page :=
         match completion o with
         | Normal _ =>
             {| Page.state := set_stopResponseFlag false (final o);
                Page.role := Page.role p1;
                Page.message := Page.message p1;
                Page.loading := false |}
         | _ =>
             {| Page.state := final o;
                Page.role := Page.role p1;
                Page.message := Page.message p1;
                Page.loading := true |}
         end;
       emitted := emitted (addHandler p) ++ events o;
       result := completion o |}.
Proof.
  intros Hsel p1 o. unfold submitHandler. rewrite ui_bind_gets.
  destruct (decide (selectedModelId (Page.state p) = EmptyString)); [done|].
  rewrite (ui_bind_outcome addHandler _ p tt)
    by (rewrite addHandler_outcome; by destruct (decide _)).
  fold p1.
  rewrite (ui_bind_outcome (ui_modify _) _ _ tt) by done.
  cbn [ui_modify page emitted app].
  destruct (completion o) as [[]|e|] eqn:Hc.
  - rewrite (ui_bind_outcome (on_state _) _ _ tt) by exact Hc.
    rewrite (ui_bind_outcome (ui_modify _) _ _ tt) by done.
    cbn [ui_modify on_state page emitted result set_loading set_state Page.state
         Page.role Page.message Page.loading].
    fold o. by rewrite app_nil_r.
  - by rewrite (ui_bind_thrown (on_state _) _ _ e) by exact Hc.
  - by rewrite (ui_bind_pending (on_state _) _ _) by exact Hc.
Qed.

Lemma submitHandler_outcome (env : Env) (p : Page.t) :
  selectedModelId (Page.state p) ≠ EmptyString →
  let p1 := page (addHandler p) in
  let o := chatCompletionHandler env (Page.state p1) in
  completion o = Normal tt →
  submitHandler env p
  = {| page := {| Page.state := set_stopResponseFlag false (final o);
                  Page.role := Page.role p1;
                  Page.message := Page.message p1;
                  Page.loading := false |};
       emitted := emitted (addHandler p) ++ events o;
       result := Normal tt |}.
Proof. intros Hsel p1 o Hc. rewrite submitHandler_run by done. fold p1 o. by rewrite Hc. Qed.

Lemma submitHandler_emitted (env : Env) (p : Page.t) :
  selectedModelId (Page.state p) ≠ EmptyString →
  emitted (submitHandler env p)
  = emitted (addHandler p)
    ++ events (chatCompletionHandler env (Page.state (page (addHandler p)))).
Proof. intros Hsel. by rewrite submitHandler_run. Qed.

Lemma addHandler_result (p : Page.t) : result (addHandler p) = Normal tt.
Proof. rewrite addHandler_outcome. by destruct (decide _). Qed.

Lemma addHandler_selection (p : Page.t) :
  selectedModelId (Page.state (page (addHandler p))) = selectedModelId (Page.state p)
  ∧ system (Page.state (page (addHandler p))) = system (Page.state p)
  ∧ stopResponseFlag (Page.state (page (addHandler p))) = stopResponseFlag (Page.state p)
  ∧ Page.message (page (addHandler p)) = EmptyString.
Proof. rewrite addHandler_outcome. destruct (decide _); by cbn. Qed.

Lemma toasts_app (evs evs' : list Event) : toasts (evs ++ evs') = toasts evs ++ toasts evs'.
Proof. apply omap_app. Qed.

Lemma requests_app (evs evs' : list Event) :
  requests (evs ++ evs') = requests evs ++ requests evs'.
Proof. apply omap_app. Qed.

Lemma aborts_app (evs evs' : list Event) : aborts (evs ++ evs') = aborts evs ++ aborts evs'.
Proof. apply omap_app. Qed.

Lemma reads_app (evs evs' : list Event) : reads (evs ++ evs') = reads evs + reads evs'.
Proof. unfold reads. by rewrite omap_app, length_app. Qed.

Lemma scrolls_app (evs evs' : list Event) :
  scrolls (evs ++ evs') = scrolls evs + scrolls evs'.
Proof. unfold scrolls. by rewrite omap_app, length_app. Qed.

Lemma addHandler_toasts (p : Page.t) : toasts (emitted (addHandler p)) = [].
Proof. rewrite addHandler_outcome. by destruct (decide _). Qed.

(** X1: when Run is pressed with a model selected and the reader of the
    response closes, the page ends with the loading flag and the stop flag
    both down, whatever the user clicked during the session: a Cancel does
    not outlive its session.  Nothing else brings the loading flag down: when
    the user lets the session run and the reader ends with a read that is
    rejected or never settled, the handler does not return and the page is
    left loading. *)
Theorem run_leaves_page_idle (env : Env) (p : Page.t) :
  selectedModelId (Page.state p) ≠ EmptyString →
  let o := submitHandler env p in
  (reader_closes env →
   Page.loading (page o) = false
   ∧ stopResponseFlag (Page.state (page o)) = false
   ∧ result o = Normal tt)
  ∧ (resolved env (Page.state p) → quiet env →
     stopResponseFlag (Page.state p) = false →
     ∀ res, response env = Some res → ok res = true → ending res ≠ Closes →
       Page.loading (page o) = true
       ∧ result o = match ending res with
                    | Rejects e => Throw e
                    | _ => Pending
                    end).
Proof.
  intros Hsel o. subst o. split.
  - intros Hcloses. by rewrite submitHandler_outcome by by try apply handler_completion.
  - intros [_ Hknown] Hquiet Hflag res Hresp Hok Hending.
    rewrite submitHandler_run by done. cbn [page result].
    destruct (addHandler_selection p) as (Hs & _ & Hf & _).
    rewrite (handler_ending env _ res); [by destruct (ending res) | | done | | done | done].
    + split; by rewrite Hs.
    + by rewrite Hf.
Qed.

Lemma run_leaves_page_idle_witness :
  let env := sample_env (streaming hello_world_stream) cancel_after_first in
  let failing :=
    sample_env (Some {| ok := true; body := [event_line "Hello"];
                        ending := Rejects (DOMException "NetworkError") |}) never in
  let p := sample_page [] "Hi" in
  selectedModelId (Page.state p) ≠ EmptyString
  ∧ reader_closes env
  ∧ aborts (emitted (submitHandler env p)) = ["User: Stop Response"]
  ∧ (Page.loading (page (submitHandler env p)) = false
     ∧ stopResponseFlag (Page.state (page (submitHandler env p))) = false
     ∧ result (submitHandler env p) = Normal tt)
  ∧ resolved failing (Page.state p) ∧ quiet failing
  ∧ messages (Page.state (page (submitHandler failing p)))
    = [user_says "Hi"; {| role := "assistant"; content := "Hello" |}]
  ∧ Page.loading (page (submitHandler failing p)) = true
  ∧ result (submitHandler failing p) = Throw (DOMException "NetworkError").
Proof.
  cbn zeta.
  assert (reader_closes (sample_env (streaming hello_world_stream) cancel_after_first))
    as Hcloses by by eapply streaming_closes.
  split; [done|]. split; [done|]. split; [by vm_compute|].
  split.
  { by apply (proj1 (run_leaves_page_idle
                       (sample_env (streaming hello_world_stream) cancel_after_first)
                       (sample_page [] "Hi") ltac:(done))). }
  split; [apply sample_resolved|]. split; [apply never_quiet|].
  split; [by vm_compute|].
  apply (proj2 (run_leaves_page_idle
                  (sample_env (Some {| ok := true; body := [event_line "Hello"];
                                       ending := Rejects (DOMException "NetworkError") |})
                              never)
                  (sample_page [] "Hi") ltac:(done))
           (sample_resolved _ _ _) (never_quiet _) eq_refl _ eq_refl eq_refl);
    done.
Defined.

(** X2: pressing Run never shows the notification "Please select a model.":
    with no model selected Run does nothing at all, not even adding or
    clearing the typed message, and with one selected the handler is past
    the test that shows it. *)
Theorem run_never_toasts (env : Env) (p : Page.t) :
  toasts (emitted (submitHandler env p)) = []
  ∧ (selectedModelId (Page.state p) = EmptyString →
     page (submitHandler env p) = p ∧ emitted (submitHandler env p) = []).
Proof.
  split; [|intros Hsel; by rewrite submitHandler_unselected].
  destruct (decide (selectedModelId (Page.state p) = EmptyString)) as [Hsel|Hsel];
    [by rewrite submitHandler_unselected|].
  rewrite submitHandler_emitted by done.
  rewrite toasts_app, addHandler_toasts. cbn [app].
  set (s1 := Page.state (page (addHandler p))).
  assert (selectedModelId s1 ≠ EmptyString) as Hsel1.
  { unfold s1. by destruct (addHandler_selection p) as [-> _]. }
  destruct (resolved_dec env s1) as [Hres|Hnot].
  - destruct (handler_resolved env s1 Hres) as (model & _ & ->).
    by destruct (issue_and_stream_requests env model s1) as [_ ->].
  - destruct (unresolved_cases env s1 Hnot) as [Hempty|[_ Hunknown]]; [done|].
    by rewrite handler_unknown.
Qed.

Lemma run_never_toasts_witness :
  let p := {| Page.state := unselected_state; Page.role := "user";
              Page.message := "Hi"; Page.loading := false |} in
  selectedModelId (Page.state p) = EmptyString
  ∧ page (submitHandler (sample_env rejected never) p) = p
  ∧ emitted (submitHandler (sample_env rejected never) p) = [].
Proof.
  cbn zeta. split; [done|].
  by apply (proj2 (run_never_toasts (sample_env rejected never)
                     {| Page.state := unselected_state; Page.role := "user";
                        Page.message := "Hi"; Page.loading := false |})).
Defined.

(** X3: when Run is pressed with a known model selected and a message typed,
    the typed turn is the last turn of the one request that is issued, under
    the role that is set, and the message box is emptied. *)
Theorem run_sends_typed_message (env : Env) (p : Page.t) :
  resolved env (Page.state p) →
  Page.message p ≠ EmptyString →
  let o := submitHandler env p in
  let s := Page.state p in
  requests (emitted o)
  = [(token env,
      {| Request.model := selectedModelId s;
         Request.stream := true;
         Request.messages :=
           (if decide (system s = EmptyString) then []
            else [ {| role := "system"; content := system s |} ])
           ++ messages s
           ++ [ {| role := Page.role p; content := Page.message p |} ] |},
      WEBUI_BASE_URL env +:+ "/api")]
  ∧ Page.message (page o) = EmptyString.
Proof.
  intros Hres Hmsg o s. subst o s. destruct Hres as [Hsel Hknown].
  rewrite submitHandler_emitted by done.
  destruct (addHandler_selection p) as (Hs & Hsys & _ & Hm).
  split; [|rewrite submitHandler_run by done; cbn [page]; by destruct (completion _)].
  set (s1 := Page.state (page (addHandler p))) in *.
  assert (resolved env s1) as Hres1 by (split; by rewrite Hs).
  destruct (handler_resolved env s1 Hres1) as (model & Hid & ->).
  destruct (issue_and_stream_requests env model s1) as [Hreq _].
  rewrite requests_app, Hreq, Hid, Hs, Hsys, request_messages_filtered.
  unfold s1. rewrite addHandler_outcome.
  destruct (decide (Page.message p = EmptyString)); [done|].
  cbn. by destruct (decide (system (Page.state p) = EmptyString)).
Qed.

Lemma run_sends_typed_message_witness :
  let env := sample_env rejected never in
  let p := sample_page [user_says "Hi"] "One more thing" in
  resolved env (Page.state p)
  ∧ Page.message p ≠ EmptyString
  ∧ requests (emitted (submitHandler env p))
    = [("secret",
        {| Request.model := "llama3";
           Request.stream := true;
           Request.messages :=
             [ {| role := "system"; content := "Be brief." |};
               user_says "Hi"; user_says "One more thing" ] |},
        "http://localhost:8080/api")]
  ∧ Page.message (page (submitHandler env p)) = EmptyString.
Proof.
  cbn zeta. split; [apply sample_resolved|]. split; [done|].
  apply (run_sends_typed_message (sample_env rejected never)
           (sample_page [user_says "Hi"] "One more thing"));
    [apply sample_resolved | done].
Defined.

(** X4: after [addHandler] the message box is empty, so a second call right
    after it adds nothing, renders nothing and scrolls nothing: a turn is
    never added twice. *)
Theorem addHandler_adds_once (p : Page.t) :
  let p1 := page (addHandler p) in
  Page.message p1 = EmptyString
  ∧ addHandler p1 = {| page := p1; emitted := []; result := Normal tt |}
  ∧ length (messages (Page.state p1))
    = length (messages (Page.state p))
      + (if decide (Page.message p = EmptyString) then 0 else 1).
Proof.
  cbn zeta. destruct (addHandler_selection p) as (_ & _ & _ & Hm).
  split; [done|]. split.
  - rewrite (addHandler_outcome (page (addHandler p))), Hm. done.
  - rewrite addHandler_outcome. destruct (decide (Page.message p = EmptyString)); cbn.
    + lia.
    + by rewrite length_app.
Qed.

(** X5: two Add clicks, each on a typed message, starting from the role
    "user", append a user turn and then an assistant turn, in this order
    behind the turns that were there, and leave the role at "user" again. *)
Theorem add_alternates_roles (p : Page.t) (first second : string) :
  Page.role p = "user" → first ≠ EmptyString → second ≠ EmptyString →
  let p1 := page (add_click (type_message first p)) in
  let p2 := page (add_click (type_message second p1)) in
  messages (Page.state p2)
  = messages (Page.state p)
    ++ [ {| role := "user"; content := first |};
         {| role := "assistant"; content := second |} ]
  ∧ Page.role p1 = "assistant"
  ∧ Page.role p2 = "user"
  ∧ Page.message p2 = EmptyString.
Proof.
  intros Hrole Hfirst Hsecond. cbn zeta. unfold add_click.
  rewrite !(ui_bind_outcome addHandler _ _ tt) by apply addHandler_result.
  rewrite !addHandler_outcome. unfold type_message. cbn [Page.message set_message].
  destruct (decide (first = EmptyString)); [done|].
  cbn [page ui_modify]. unfold toggle_role.
  cbn [Page.role Page.message Page.state set_message set_state set_role push_turn
       set_messages messages].
  rewrite Hrole. cbn.
  destruct (decide (second = EmptyString)); [done|]. cbn.
  by rewrite <- app_assoc.
Qed.

Lemma add_alternates_roles_witness :
  let p := sample_page [] EmptyString in
  let p1 := page (add_click (type_message "Hi" p)) in
  let p2 := page (add_click (type_message "Hello, how can I help?" p1)) in
  Page.role p = "user"
  ∧ messages (Page.state p2)
    = [ {| role := "user"; content := "Hi" |};
        {| role := "assistant"; content := "Hello, how can I help?" |} ]
  ∧ Page.role p1 = "assistant"
  ∧ Page.role p2 = "user"
  ∧ Page.message p2 = EmptyString.
Proof.
  cbn zeta. split; [done|].
  by apply (add_alternates_roles (sample_page [] EmptyString)
              "Hi" "Hello, how can I help?").
Defined.

(** ** What a session keeps *)

Global Instance keeps_selection_compositional : Compositional keeps_selection.
Proof.
  split; unfold keeps_selection.
  - done.
  - intros s evs s' evs' s'' [H1 H2] [H3 H4]. split; congruence.
Qed.

Section Keeps.
Context (env : Env).

Lemma process_chunk_keeps n value : respects keeps_selection (process_chunk env n value).
Proof.
  unfold process_chunk. respects_step.
  - apply (for_lines_respects env keeps_selection). intros i line.
    unfold process_line, render. repeat respects_step. all: done.
  - respects_step. done.
Qed.

Lemma read_loop_keeps n pending ending :
  respects keeps_selection (read_loop env n pending ending).
Proof. apply (read_loop_respects env keeps_selection); [apply process_chunk_keeps | done..]. Qed.

Lemma issue_and_stream_keeps model s :
  selectedModelId (final (issue_and_stream env model s)) = selectedModelId s
  ∧ system (final (issue_and_stream env model s)) = system s.
Proof.
  rewrite issue_and_stream_outcome. cbn [final].
  set (s3 := final (await env AwMount _)).
  assert (selectedModelId s3 = selectedModelId s ∧ system s3 = system s) as [Hsel Hsys].
  { unfold s3. rewrite !await_outcome. cbn [final].
    by destruct (cancel_clicked env AwMount), (cancel_clicked env AwRequest). }
  rewrite <- Hsel, <- Hsys.
  destruct (response env) as [[[] chunks how]|]; cbn [ok body ending]; try done.
  apply read_loop_keeps.
Qed.

Lemma handler_last_assistant s :
  resolved env s →
  last_is_assistant (messages (final (chatCompletionHandler env s))) = true.
Proof.
  intros Hres. destruct (handler_resolved env s Hres) as (model & _ & ->).
  pose proof (issue_and_stream_ascending env model s) as Hasc. cbn zeta in Hasc.
  assert (extends (chosen (messages s)) (messages (final (issue_and_stream env model s))))
    as [u ->].
  { eapply ascending_all; [done|]. apply elem_of_app. right. apply list_elem_of_here. }
  destruct (chosen_response_turn (messages s)) as (others & t & Hrole & -> & _).
  rewrite update_last_snoc. unfold last_is_assistant.
  rewrite last_snoc. cbn. by rewrite Hrole, bool_decide_eq_true.
Qed.
End Keeps.

(** X6: once the model is resolved, a session changes neither the selected
    model identifier nor the system text, whatever is streamed and whatever
    is clicked, and it ends with an assistant turn as the last turn. *)
Theorem session_keeps_selection (env : Env) (s : State) :
  resolved env s →
  let o := chatCompletionHandler env s in
  selectedModelId (final o) = selectedModelId s
  ∧ system (final o) = system s
  ∧ last_is_assistant (messages (final o)) = true.
Proof.
  intros Hres o. subst o. split; [|split; [|by apply handler_last_assistant]].
  all: destruct (handler_resolved env s Hres) as (model & _ & ->).
  all: by destruct (issue_and_stream_keeps env model s).
Qed.

Lemma session_keeps_selection_witness :
  let env := sample_env (streaming hello_then_broken_stream) cancel_after_first in
  let s := sample_state [user_says "Hi"] in
  resolved env s
  ∧ let o := chatCompletionHandler env s in
    selectedModelId (final o) = "llama3"
    ∧ system (final o) = "Be brief."
    ∧ last_is_assistant (messages (final o)) = true.
Proof.
  cbn zeta. split; [apply sample_resolved|].
  apply (session_keeps_selection
           (sample_env (streaming hello_then_broken_stream) cancel_after_first)
           (sample_state [user_says "Hi"])).
  apply sample_resolved.
Defined.

(** X7: pressing Run again, without typing, after a session whose reader
    closed continues the same assistant turn: what the second stream gives is
    appended to what the first session left there and no turn is added.  The
    second session reads its stream to the end even if the first one was
    cancelled. *)
Theorem rerun_continues_turn (env1 env2 : Env) (p : Page.t) (chunks : list string) :
  resolved env1 (Page.state p) →
  reader_closes env1 →
  models env2 = models env1 →
  quiet env2 →
  response env2 = streaming chunks →
  let p1 := page (submitHandler env1 p) in
  let o2 := submitHandler env2 p1 in
  let ms1 := messages (Page.state p1) in
  messages (Page.state (page o2))
  = with_content (chunks_content env2 (responseMessage_content ms1) chunks) ms1
  ∧ length (messages (Page.state (page o2))) = length ms1
  ∧ aborts (emitted o2) = []
  ∧ reads (emitted o2) = S (length chunks).
Proof.
  intros [Hsel Hknown] Hcloses Hmodels Hquiet Hresp. cbn zeta.
  rewrite (submitHandler_outcome env1 p) by by try apply handler_completion.
  cbn [page Page.state].
  destruct (addHandler_selection p) as (Hs & _ & _ & Hm).
  set (s0 := Page.state (page (addHandler p))) in *.
  assert (resolved env1 s0) as Hres0 by (split; by rewrite Hs).
  set (s1 := set_stopResponseFlag false (final (chatCompletionHandler env1 s0))).
  set (p1 := {| Page.state := s1; Page.role := _; Page.message := _; Page.loading := _ |}).
  assert (selectedModelId s1 = selectedModelId s0) as Hs1.
  { unfold s1. cbn [selectedModelId set_stopResponseFlag].
    destruct (handler_resolved env1 s0 Hres0) as (model & _ & ->).
    by destruct (issue_and_stream_keeps env1 model s0). }
  assert (last_is_assistant (messages s1) = true) as Hlast.
  { unfold s1. cbn [messages set_stopResponseFlag]. by apply handler_last_assistant. }
  assert (resolved env2 s1) as Hres1.
  { split; rewrite Hs1, ?Hmodels; apply Hres0. }
  assert (addHandler p1 = {| page := p1; emitted := []; result := Normal tt |}) as Hadd.
  { rewrite addHandler_outcome. unfold p1. cbn [Page.message]. by rewrite Hm. }
  rewrite (submitHandler_outcome env2 p1)
    by (try apply Hres1; eapply handler_completion, streaming_closes, Hresp).
  rewrite Hadd. cbn [page emitted Page.state app set_stopResponseFlag messages].
  destruct (handler_streams env2 s1 chunks Hres1 Hquiet eq_refl Hresp)
    as (Hmsg & _ & Ha & Hr & _).
  change (Page.state p1) with s1. rewrite Hmsg. unfold seed, chosen. rewrite Hlast.
  split; [done|]. split; [|done].
  destruct (decide (messages s1 = [])) as [Hnil|Hne]; [by rewrite Hnil|].
  destruct (nonempty_snoc _ Hne) as (others & t & ->).
  by rewrite with_content_snoc, !length_app.
Qed.

Lemma rerun_continues_turn_witness :
  let env1 := sample_env (streaming hello_world_stream) cancel_after_first in
  let env2 := sample_env (streaming [event_line "World"]) never in
  let p := sample_page [] "Hi" in
  resolved env1 (Page.state p)
  ∧ reader_closes env1
  ∧ models env2 = models env1
  ∧ quiet env2
  ∧ messages (Page.state (page (submitHandler env1 p)))
    = [user_says "Hi"; {| role := "assistant"; content := "Hello" |}]
  ∧ messages (Page.state (page (submitHandler env2 (page (submitHandler env1 p)))))
    = [user_says "Hi"; {| role := "assistant"; content := "HelloWorld" |}].
Proof.
  cbn zeta. split; [apply sample_resolved|].
  split; [by eapply streaming_closes|]. split; [done|]. split; [apply never_quiet|].
  split; [by vm_compute|].
  refine (eq_trans (proj1 (rerun_continues_turn
            (sample_env (streaming hello_world_stream) cancel_after_first)
            (sample_env (streaming [event_line "World"]) never)
            (sample_page [] "Hi") [event_line "World"] _ _ _ _ _)) _);
    [apply sample_resolved | by eapply streaming_closes | done | apply never_quiet
    | done | by vm_compute].
Defined.

(** ** Scrolling, and lines of other shapes *)

Lemma line_events_no_scroll (evs : list Event) : Forall line_event evs → scrolls evs = 0.
Proof.
  induction 1 as [|e evs He _ IH]; [done|].
  change (e :: evs) with ([e] ++ evs). rewrite scrolls_app, IH. by destruct e.
Qed.

Section Scrolls.
Context (env : Env).

Lemma read_loop_reads_scrolls n pending s :
  reads (events (read_loop env n pending Closes s))
  = S (scrolls (events (read_loop env n pending Closes s))).
Proof.
  revert n s. induction pending as [|value rest IH]; intros n s.
  all: destruct (cancel_clicked env (AwRead n)) eqn:Hclick;
    [by rewrite read_loop_clicked|].
  all: destruct (stopResponseFlag s) eqn:Hflag; [by rewrite read_loop_stopped|].
  - by rewrite read_loop_done.
  - rewrite read_loop_step by done. cbn [events].
    change (ERead :: ?a ++ EScroll :: ?b) with ([ERead] ++ a ++ [EScroll] ++ b).
    rewrite !reads_app, !scrolls_app, IH.
    destruct (line_events_silent _ (process_chunk_events env n value s)) as [_ ->].
    by rewrite (line_events_no_scroll _ (process_chunk_events env n value s)).
Qed.

Lemma read_loop_quiet_scrolls n pending s :
  stopResponseFlag s = false →
  (∀ k, cancel_clicked env (AwRead k) = false) →
  (∀ k j, cancel_clicked env (AwAppend k j) = false) →
  scrolls (events (read_loop env n pending Closes s)) = length pending.
Proof.
  intros Hflag Hread Happend.
  pose proof (read_loop_reads_scrolls n pending s) as Hrs.
  destruct (read_loop_quiet env n pending Closes s Hflag Hread Happend)
    as (_ & _ & Hr & _).
  rewrite Hr in Hrs. by injection Hrs.
Qed.
End Scrolls.

(** X8: in a session that streams, the view is scrolled once for every chunk
    that is processed, also for a chunk whose line threw, and the reader is
    read once more than that; when the user does not cancel, that is one
    scroll per chunk of the stream. *)
Theorem one_scroll_per_chunk (env : Env) (s : State) (chunks : list string) :
  resolved env s →
  response env = streaming chunks →
  let o := chatCompletionHandler env s in
  reads (events o) = S (scrolls (events o))
  ∧ (quiet env → stopResponseFlag s = false → scrolls (events o) = length chunks).
Proof.
  intros Hres Hresp o. subst o.
  destruct (handler_resolved env s Hres) as (model & _ & ->).
  rewrite issue_and_stream_outcome, Hresp. cbn [streaming ok body ending events].
  rewrite !await_outcome, choose_responseMessage_outcome. cbn [events final].
  change (?e :: ?a ++ ?b ++ ?c ++ ?d) with ([e] ++ a ++ b ++ c ++ d).
  rewrite !reads_app, !scrolls_app, read_loop_reads_scrolls.
  split.
  - destruct (cancel_clicked env AwRequest), (cancel_clicked env AwMount);
      cbn [messages set_stopResponseFlag];
      by destruct (last_is_assistant (messages s)).
  - intros Hquiet Hflag. rewrite !Hquiet.
    rewrite read_loop_quiet_scrolls by done.
    by destruct (last_is_assistant (messages s)).
Qed.

Lemma one_scroll_per_chunk_witness :
  let env := sample_env (streaming hello_then_broken_stream) never in
  let s := sample_state [user_says "Hi"] in
  resolved env s
  ∧ response env = streaming hello_then_broken_stream
  ∧ quiet env ∧ stopResponseFlag s = false
  ∧ reads (events (chatCompletionHandler env s)) = 3
  ∧ scrolls (events (chatCompletionHandler env s)) = 2.
Proof.
  cbn zeta. split; [apply sample_resolved|]. split; [done|]. split; [apply never_quiet|].
  split; [done|]. split; [by vm_compute|].
  apply (proj2 (one_scroll_per_chunk
                  (sample_env (streaming hello_then_broken_stream) never)
                  (sample_state [user_says "Hi"]) hello_then_broken_stream
                  (sample_resolved _ _ _) eq_refl));
    [apply never_quiet | done].
Defined.

Lemma classify_parsed (env : Env) (line : string) (data : json) :
  line ≠ EmptyString → line ≠ sentinel →
  JSON_parse env (replace_data_prefix line) = Some data →
  classify env line
  = match delta_content data with
    | Normal v =>
        match fragment_text v with
        | Normal _ => Delta v
        | Throw e => Malformed e
        | Pending => Blank
        end
    | Throw e => Malformed e
    | Pending => Blank
    end.
Proof.
  intros Hne Hns Hparse. unfold classify.
  destruct (decide (line = EmptyString)); [done|].
  destruct (decide (line = sentinel)); [done|]. by rewrite Hparse.
Qed.

(** X9: a line that is valid JSON but not an event (the value null, an
    object without [choices], or one whose [choices] is an empty array) is
    treated like a line that does not parse: reading the delta throws a
    TypeError, which is logged, and the conversation is left as it was. *)
Theorem wrong_shape_is_swallowed (env : Env) (n : nat) (line : string) (data : json)
    (s : State) :
  split_newline line = [line] →
  line ≠ EmptyString → line ≠ sentinel →
  JSON_parse env (replace_data_prefix line) = Some data →
  (data = JNull
   ∨ (∃ fields, data = JObj fields
                ∧ (assoc "choices" fields = None
                   ∨ assoc "choices" fields = Some (JArr [])))) →
  let o := process_chunk env n line s in
  messages (final o) = messages s
  ∧ logged_errors (events o) = [TypeError]
  ∧ completion o = Normal tt.
Proof.
  intros Hsplit Hne Hns Hparse Hshape. cbn zeta.
  assert (delta_content data = Throw TypeError) as Hdelta.
  { destruct Hshape as [->|(fields & -> & [Hc|Hc])]; [done|..].
    all: unfold delta_content; cbn [get_prop and_then]; by rewrite Hc. }
  pose proof (classify_parsed env line data Hne Hns Hparse) as Hkind.
  rewrite Hdelta in Hkind.
  rewrite process_chunk_messages, process_chunk_errors, process_chunk_completion, Hsplit.
  simpl. rewrite Hkind. by rewrite with_content_same.
Qed.

(** X10: an event whose delta has no content, or the content null, appends
    the empty string: the conversation is the same after it, nothing is
    thrown or logged as an error, and the view is rendered once all the
    same. *)
Theorem absent_content_appends_nothing (env : Env) (n i : nat) (line : string)
    (data : json) (v : jsval) (s : State) :
  line ≠ EmptyString → line ≠ sentinel →
  JSON_parse env (replace_data_prefix line) = Some data →
  delta_content data = Normal v →
  v = None ∨ v = Some JNull →
  let o := process_line env n i line s in
  messages (final o) = messages s
  ∧ completion o = Normal tt
  ∧ logged_errors (events o) = []
  ∧ renders (events o) = [messages s].
Proof.
  intros Hne Hns Hparse Hdelta Hv. cbn zeta.
  assert (fragment_text v = Normal EmptyString ∧ loose_eq_newline v = Normal false)
    as [Htext Hnl].
  { by destruct Hv as [->| ->]. }
  assert (update_last (append_content EmptyString) (messages s) = messages s) as Hsame.
  { by rewrite append_to_last, append_nil_r, with_content_same. }
  line_cases; simplify_eq/=.
  all: repeat match goal with
         | H : ?c = Normal _, H' : ?c = _ |- _ => rewrite H in H'; simplify_eq
         end.
  all: try congruence.
  all: by rewrite Hsame.
Qed.

Lemma wrong_shape_is_swallowed_witness :
  let env := backend_env None in
  let line := "data: " +:+ error_text in
  let s := sample_state [user_says "Hi"; {| role := "assistant"; content := "Hel" |}] in
  split_newline line = [line]
  ∧ JSON_parse env (replace_data_prefix line) = Some (JObj [("error", JStr "overloaded")])
  ∧ let o := process_chunk env 0 line s in
    messages (final o) = messages s
    ∧ logged_errors (events o) = [TypeError]
    ∧ completion o = Normal tt.
Proof.
  cbn zeta. split; [done|]. split; [done|].
  apply (wrong_shape_is_swallowed (backend_env None) 0 ("data: " +:+ error_text)
           (JObj [("error", JStr "overloaded")])
           (sample_state [user_says "Hi"; {| role := "assistant"; content := "Hel" |}]));
    [done | done | done | done |].
  right. exists [("error", JStr "overloaded")]. split; [done | by left].
Defined.

Lemma absent_content_appends_nothing_witness :
  let env := backend_env None in
  let line := "data: " +:+ empty_delta_text in
  let s := sample_state [user_says "Hi"; {| role := "assistant"; content := "Hel" |}] in
  JSON_parse env (replace_data_prefix line) = Some empty_delta_json
  ∧ delta_content empty_delta_json = Normal None
  ∧ let o := process_line env 0 0 line s in
    messages (final o) = messages s
    ∧ completion o = Normal tt
    ∧ logged_errors (events o) = []
    ∧ renders (events o) = [messages s].
Proof.
  cbn zeta. split; [done|]. split; [done|].
  apply (absent_content_appends_nothing (backend_env None) 0 0
           ("data: " +:+ empty_delta_text) empty_delta_json None
           (sample_state [user_says "Hi"; {| role := "assistant"; content := "Hel" |}]));
    [done | done | done | done | by left].
Defined.

(** ** The prefix and the blank lines *)

Lemma strip_prefix_app (prefix rest : string) :
  strip_prefix prefix (prefix +:+ rest) = Some rest.
Proof.
  induction prefix as [|a prefix IH]; [done|].
  rewrite append_cons. simpl. by rewrite Ascii.eqb_refl.
Qed.

Section Prefix.
Context (env : Env).

Lemma process_line_parses n i line s :
  parses (events (process_line env n i line s))
  = match classify env line with
    | Blank | Terminate => []
    | _ => [replace_data_prefix line]
    end.
Proof. line_cases; done. Qed.

Lemma lines_content_nonblank c lines :
  lines_content env c (filter (λ line, nonblank line) lines) = lines_content env c lines.
Proof.
  revert c. induction lines as [|line rest IH]; intros c; [done|].
  destruct (decide (line = EmptyString)) as [->|Hne].
  - rewrite filter_cons_False by (cbn; tauto). simpl. apply IH.
  - rewrite filter_cons_True.
    2: { unfold nonblank. by rewrite bool_decide_eq_false_2. }
    simpl. destruct (classify env line); by rewrite ?IH.
Qed.

Lemma first_error_nonblank lines :
  first_error env (filter (λ line, nonblank line) lines) = first_error env lines.
Proof.
  induction lines as [|line rest IH]; [done|].
  destruct (decide (line = EmptyString)) as [->|Hne].
  - rewrite filter_cons_False by (cbn; tauto). simpl. apply IH.
  - rewrite filter_cons_True.
    2: { unfold nonblank. by rewrite bool_decide_eq_false_2. }
    simpl. destruct (classify env line); by rewrite ?IH.
Qed.
End Prefix.

(** X11: the prefix "data: " is optional: a line and the same line behind the
    prefix are parsed as the same text and leave the same conversation and
    the same completion (the text "[DONE]" apart, which behind the prefix is
    the terminate sentinel). *)
Theorem data_prefix_is_optional (env : Env) (n i : nat) (text : string) (s : State) :
  strip_prefix "data: " text = None →
  text ≠ EmptyString → text ≠ "[DONE]" →
  let o := process_line env n i text s in
  let o' := process_line env n i ("data: " +:+ text) s in
  parses (events o) = [text]
  ∧ parses (events o') = [text]
  ∧ messages (final o') = messages (final o)
  ∧ completion o' = completion o.
Proof.
  intros Hnone Hne Hdone. cbn zeta.
  assert (replace_data_prefix text = text) as Hplain.
  { unfold replace_data_prefix. by rewrite Hnone. }
  assert (replace_data_prefix ("data: " +:+ text) = text) as Hstrip.
  { unfold replace_data_prefix. by rewrite strip_prefix_app. }
  assert (text ≠ sentinel) as Hns by (by intros ->).
  assert ("data: " +:+ text ≠ sentinel) as Hns'.
  { intros Heq. apply Hdone. by injection Heq. }
  assert ("data: " +:+ text ≠ EmptyString) as Hne' by done.
  assert (classify env ("data: " +:+ text) = classify env text) as Hkind.
  { unfold classify. rewrite Hplain, Hstrip.
    destruct (decide (text = EmptyString)); [done|].
    destruct (decide (text = sentinel)); [done|].
    destruct (decide ("data: " +:+ text = EmptyString)); [done|].
    by destruct (decide ("data: " +:+ text = sentinel)). }
  rewrite !process_line_parses, !process_line_messages, !process_line_completion.
  simpl. rewrite Hkind, Hplain, Hstrip.
  unfold classify.
  destruct (decide (text = EmptyString)); [done|].
  destruct (decide (text = sentinel)); [done|].
  rewrite Hplain. destruct (JSON_parse env text) as [data|]; [|done].
  pose proof (delta_content_settled data) as Hdelta.
  destruct (delta_content data) as [v|e|]; [|done..].
  pose proof (fragment_text_settled v) as Htext.
  by destruct (fragment_text v).
Qed.

Lemma data_prefix_is_optional_witness :
  let env := sample_env None never in
  let s := sample_state [user_says "Hi"; {| role := "assistant"; content := EmptyString |}] in
  strip_prefix "data: " (event_text "Hello") = None
  ∧ let o := process_line env 0 0 (event_text "Hello") s in
    let o' := process_line env 0 0 ("data: " +:+ event_text "Hello") s in
    parses (events o) = [event_text "Hello"]
    ∧ parses (events o') = [event_text "Hello"]
    ∧ messages (final o') = messages (final o)
    ∧ completion o' = completion o.
Proof.
  cbn zeta. split; [done|].
  by apply (data_prefix_is_optional (sample_env None never) 0 0 (event_text "Hello")).
Defined.

(** X12: empty lines count for nothing: two chunks with the same non-empty
    lines in the same order leave the same conversation and log the same
    error, so the blank lines that separate events change no outcome. *)
Theorem blank_lines_are_ignored (env : Env) (n n' : nat) (value value' : string)
    (s : State) :
  filter (λ line, nonblank line) (split_newline value)
  = filter (λ line, nonblank line) (split_newline value') →
  let o := process_chunk env n value s in
  let o' := process_chunk env n' value' s in
  messages (final o) = messages (final o')
  ∧ logged_errors (events o) = logged_errors (events o').
Proof.
  intros Hsame. cbn zeta.
  rewrite !process_chunk_messages, !process_chunk_errors.
  rewrite <- (lines_content_nonblank env _ (split_newline value)).
  rewrite <- (lines_content_nonblank env _ (split_newline value')).
  rewrite <- (first_error_nonblank env (split_newline value)).
  rewrite <- (first_error_nonblank env (split_newline value')).
  by rewrite Hsame.
Qed.

Lemma blank_lines_are_ignored_witness :
  let env := sample_env None never in
  let s := sample_state [user_says "Hi"; {| role := "assistant"; content := EmptyString |}] in
  let value := event_line "Hello" +:+ newline +:+ newline +:+ event_line "World" +:+ newline in
  let value' := event_line "Hello" +:+ newline +:+ event_line "World" in
  filter (λ line, nonblank line) (split_newline value)
  = filter (λ line, nonblank line) (split_newline value')
  ∧ split_newline value = [event_line "Hello"; EmptyString; event_line "World"; EmptyString]
  ∧ messages (final (process_chunk env 0 value s))
    = messages (final (process_chunk env 0 value' s))
  ∧ logged_errors (events (process_chunk env 0 value s))
    = logged_errors (events (process_chunk env 0 value' s)).
Proof.
  cbn zeta. split; [by vm_compute|]. split; [by vm_compute|].
  apply (blank_lines_are_ignored (sample_env None never) 0 0).
  by vm_compute.
Defined.

(** ** The selection at mount *)

Lemma split_on_head (sep : ascii) (text : string) :
  ∃ piece pieces,
    split_on sep text = piece :: pieces
    ∧ has_char sep piece = false
    ∧ (pieces = [] ∧ text = piece
       ∨ ∃ rest, text = piece +:+ String sep rest).
Proof.
  induction text as [|c text (piece & pieces & Hsplit & Hfree & Hshape)].
  - exists EmptyString, []. split; [done|]. split; [done | by left].
  - simpl. destruct (Ascii.eqb c sep) eqn:Hc.
    + apply Ascii.eqb_eq in Hc as ->.
      exists EmptyString, (split_on sep text). split; [done|]. split; [done|].
      right. by exists text.
    + rewrite Hsplit. exists (String c piece), pieces. split; [done|].
      split; [simpl; by rewrite Hc|].
      destruct Hshape as [[-> ->]|[rest ->]]; [by left|].
      right. by exists rest.
Qed.

(** X13: when no model list is saved in the settings and a default is
    configured, mounting selects the text of the default up to its first
    comma: the selection holds no comma and the default is the selection, or
    the selection followed by a comma and more.  A saved list wins over the
    default even when it is empty, and then nothing is selected. *)
Theorem mount_selects_first_default (stores : Stores) (defaults : string) :
  default_models stores = Some defaults →
  defaults ≠ EmptyString →
  (settings_models stores = None →
   ∃ sel, selected (onMount stores) = Some sel
          ∧ has_char ","%char sel = false
          ∧ (defaults = sel ∨ ∃ rest, defaults = sel +:+ String ","%char rest))
  ∧ (settings_models stores = Some [] → selected (onMount stores) = None).
Proof.
  intros Hdefault Hne. split.
  - intros Hsaved. unfold onMount. cbn. rewrite Hsaved, Hdefault.
    destruct (decide (defaults = EmptyString)); [done|].
    destruct (split_on_head ","%char defaults) as (piece & pieces & -> & Hfree & Hshape).
    exists piece. split; [done|]. split; [done|].
    destruct Hshape as [[_ ->]|[rest ->]]; [by left | right; by exists rest].
  - intros Hsaved. unfold onMount. cbn. by rewrite Hsaved.
Qed.

Lemma mount_selects_first_default_witness :
  let stores := {| user_role := Some "admin"; settings_models := None;
                   default_models := Some "llama3,mistral" |} in
  default_models stores = Some "llama3,mistral"
  ∧ settings_models stores = None
  ∧ selected (onMount stores) = Some "llama3"
  ∧ ∃ sel, selected (onMount stores) = Some sel
           ∧ has_char ","%char sel = false
           ∧ ("llama3,mistral" = sel ∨ ∃ rest, "llama3,mistral" = sel +:+ String ","%char rest).
Proof.
  cbn zeta. split; [done|]. split; [done|]. split; [done|].
  by apply (proj1 (mount_selects_first_default
                     {| user_role := Some "admin"; settings_models := None;
                        default_models := Some "llama3,mistral" |}
                     "llama3,mistral" eq_refl ltac:(done))).
Defined.

(** ** Aborting *)

Section Aborts.
Context (env : Env).

Lemma read_loop_aborts n pending s :
  let o := read_loop env n pending Closes s in
  aborts (events o) = if stopResponseFlag (final o) then [abort_reason] else [].
Proof.
  cbn zeta. revert n s. induction pending as [|value rest IH]; intros n s.
  all: destruct (cancel_clicked env (AwRead n)) eqn:Hclick;
    [by rewrite read_loop_clicked|].
  all: destruct (stopResponseFlag s) eqn:Hflag;
    [rewrite read_loop_stopped by done; cbn; by rewrite Hflag|].
  - rewrite read_loop_done by done. cbn. by rewrite Hflag.
  - rewrite read_loop_step by done. cbn [events final].
    change (ERead :: ?a ++ EScroll :: ?b) with ([ERead] ++ a ++ [EScroll] ++ b).
    rewrite !aborts_app, IH.
    by destruct (line_events_silent _ (process_chunk_events env n value s)) as [-> _].
Qed.

Lemma read_loop_flag_up n pending s :
  stopResponseFlag s = true →
  let o := read_loop env n pending Closes s in
  messages (final o) = messages s
  ∧ reads (events o) = 1
  ∧ parses (events o) = []
  ∧ stopResponseFlag (final o) = true.
Proof.
  intros Hflag. cbn zeta.
  destruct (cancel_clicked env (AwRead n)) eqn:Hclick.
  - by rewrite read_loop_clicked.
  - by rewrite read_loop_stopped.
Qed.
End Aborts.

(** X14: in a session that streams, the cancellation handle is called at
    most once, always with the reason "User: Stop Response", and it is called
    exactly when the session ends with the stop flag up, whatever the stream
    and the clicks. *)
Theorem abort_at_most_once (env : Env) (s : State) (chunks : list string) :
  resolved env s →
  response env = streaming chunks →
  let o := chatCompletionHandler env s in
  aborts (events o)
  = if stopResponseFlag (final o) then ["User: Stop Response"] else [].
Proof.
  intros Hres Hresp o. subst o.
  destruct (handler_resolved env s Hres) as (model & _ & ->).
  rewrite issue_and_stream_outcome, Hresp. cbn [streaming ok body ending events final].
  rewrite !await_outcome, choose_responseMessage_outcome. cbn [events final].
  change (?e :: ?a ++ ?b ++ ?c ++ ?d) with ([e] ++ a ++ b ++ c ++ d).
  rewrite !aborts_app, read_loop_aborts.
  destruct (cancel_clicked env AwRequest), (cancel_clicked env AwMount);
    cbn [messages set_stopResponseFlag];
    by destruct (last_is_assistant (messages s)).
Qed.

Lemma abort_at_most_once_witness :
  let env := sample_env (streaming hello_world_stream) cancel_after_first in
  let s := sample_state [user_says "Hi"] in
  resolved env s
  ∧ response env = streaming hello_world_stream
  ∧ stopResponseFlag (final (chatCompletionHandler env s)) = true
  ∧ aborts (events (chatCompletionHandler env s))
    = if stopResponseFlag (final (chatCompletionHandler env s))
      then ["User: Stop Response"] else [].
Proof.
  cbn zeta. split; [apply sample_resolved|]. split; [done|]. split; [by vm_compute|].
  apply (abort_at_most_once
           (sample_env (streaming hello_world_stream) cancel_after_first)
           (sample_state [user_says "Hi"]) hello_world_stream
           (sample_resolved _ _ _) eq_refl).
Defined.

(** X15: a Cancel click that lands while the request is in flight, or while
    the page mounts the response turn, does not stop the request: the reader
    is read once, its first value is thrown away with nothing parsed, the
    cancellation handle is called once then, and the response turn that was
    chosen or appended is left as it is. *)
Theorem early_cancel_discards_stream (env : Env) (s : State) (chunks : list string) :
  resolved env s →
  response env = streaming chunks →
  cancel_clicked env AwRequest = true ∨ cancel_clicked env AwMount = true →
  let o := chatCompletionHandler env s in
  length (requests (events o)) = 1
  ∧ reads (events o) = 1
  ∧ parses (events o) = []
  ∧ aborts (events o) = ["User: Stop Response"]
  ∧ messages (final o) = chosen (messages s).
Proof.
  intros Hres Hresp Hclick o. subst o.
  destruct (handler_resolved env s Hres) as (model & _ & ->).
  destruct (issue_and_stream_requests env model s) as [-> _]. split; [done|].
  rewrite issue_and_stream_outcome, Hresp. cbn [streaming ok body ending events final].
  set (s3 := final (await env AwMount _)).
  assert (stopResponseFlag s3 = true ∧ messages s3 = chosen (messages s)) as [Hflag Hms].
  { unfold s3. rewrite !await_outcome. cbn [final].
    destruct Hclick as [-> | ->]; [by destruct (cancel_clicked env AwMount) | done]. }
  destruct (read_loop_flag_up env 0 chunks s3 Hflag) as (Hm & Hr & Hp & Hf).
  pose proof (read_loop_aborts env 0 chunks s3) as Ha. cbn zeta in Ha. rewrite Hf in Ha.
  rewrite Hm, Hms.
  rewrite !await_outcome, choose_responseMessage_outcome. cbn [events final].
  change (?e :: ?a ++ ?b ++ ?c ++ ?d) with ([e] ++ a ++ b ++ c ++ d).
  rewrite !reads_app, !aborts_app, Hr, Ha. unfold parses in *. rewrite !omap_app, Hp.
  destruct (cancel_clicked env AwRequest), (cancel_clicked env AwMount);
    cbn [messages set_stopResponseFlag];
    by destruct (last_is_assistant (messages s)).
Qed.

Lemma early_cancel_discards_stream_witness :
  let env := sample_env (streaming hello_world_stream)
               (λ p, match p with AwRequest => true | _ => false end) in
  let s := sample_state [user_says "Hi"] in
  resolved env s
  ∧ response env = streaming hello_world_stream
  ∧ cancel_clicked env AwRequest = true
  ∧ let o := chatCompletionHandler env s in
    length (requests (events o)) = 1
    ∧ reads (events o) = 1
    ∧ parses (events o) = []
    ∧ aborts (events o) = ["User: Stop Response"]
    ∧ messages (final o)
      = [user_says "Hi"; {| role := "assistant"; content := EmptyString |}].
Proof.
  cbn zeta. split; [apply sample_resolved|]. split; [done|]. split; [done|].
  apply (early_cancel_discards_stream
           (sample_env (streaming hello_world_stream)
              (λ p, match p with AwRequest => true | _ => false end))
           (sample_state [user_says "Hi"]) hello_world_stream
           (sample_resolved _ _ _) eq_refl (or_introl eq_refl)).
Defined.

(** X16: when Run is pressed on a message typed under the role "assistant",
    that message becomes the response turn: the streamed fragments are
    appended to the typed text in the one turn that is added, and no second
    assistant turn is created. *)
Theorem run_continues_typed_assistant_turn (env : Env) (p : Page.t)
    (chunks : list string) :
  resolved env (Page.state p) → quiet env →
  stopResponseFlag (Page.state p) = false →
  response env = streaming chunks →
  Page.role p = "assistant" → Page.message p ≠ EmptyString →
  messages (Page.state (page (submitHandler env p)))
  = messages (Page.state p)
    ++ [ {| role := "assistant";
            content := chunks_content env (Page.message p) chunks |} ].
Proof.
  intros [Hsel Hknown] Hquiet Hflag Hresp Hrole Hmsg.
  rewrite submitHandler_outcome
    by (try done; eapply handler_completion, streaming_closes, Hresp).
  cbn [page Page.state messages set_stopResponseFlag].
  destruct (addHandler_selection p) as (Hs & _ & Hf & _).
  set (s1 := Page.state (page (addHandler p))) in *.
  assert (resolved env s1) as Hres1 by (split; by rewrite Hs).
  assert (messages s1
          = messages (Page.state p)
            ++ [ {| role := "assistant"; content := Page.message p |} ]) as Hms.
  { unfold s1. rewrite addHandler_outcome.
    destruct (decide (Page.message p = EmptyString)); [done|]. cbn. by rewrite Hrole. }
  destruct (handler_streams env s1 chunks Hres1 Hquiet) as (-> & _);
    [by rewrite Hf | done |].
  assert (last_is_assistant (messages s1) = true) as Hlast.
  { rewrite Hms. unfold last_is_assistant. rewrite last_snoc. by apply bool_decide_eq_true. }
  unfold seed, chosen. rewrite Hlast, Hms.
  by rewrite responseMessage_content_snoc, with_content_snoc.
Qed.

Lemma run_continues_typed_assistant_turn_witness :
  let chunks := ["data: " +:+ unconvertible_text; event_line "World"] in
  let env := conversion_env (streaming chunks) in
  let p := {| Page.state := sample_state [user_says "Greet me"]; Page.role := "assistant";
              Page.message := "x"; Page.loading := false |} in
  resolved env (Page.state p) ∧ quiet env
  ∧ stopResponseFlag (Page.state p) = false
  ∧ Page.role p = "assistant" ∧ Page.message p ≠ EmptyString
  ∧ chunks_content env "x" chunks = "xWorld"
  ∧ logged_errors (emitted (submitHandler env p)) = [TypeError]
  ∧ messages (Page.state (page (submitHandler env p)))
    = [user_says "Greet me"]
      ++ [ {| role := "assistant"; content := chunks_content env "x" chunks |} ].
Proof.
  cbn zeta.
  assert (resolved (conversion_env
                      (streaming ["data: " +:+ unconvertible_text; event_line "World"]))
            (sample_state [user_says "Greet me"])) as Hres.
  { split; [done|]. exists {| Model.id := "llama3"; Model.name := "Llama 3" |}.
    split; [apply list_elem_of_here | done]. }
  split; [done|]. split; [done|]. split; [done|]. split; [done|]. split; [done|].
  split; [by vm_compute|]. split; [by vm_compute|].
  apply (run_continues_typed_assistant_turn
           (conversion_env (streaming ["data: " +:+ unconvertible_text; event_line "World"]))
           {| Page.state := sample_state [user_says "Greet me"]; Page.role := "assistant";
              Page.message := "x"; Page.loading := false |}
           ["data: " +:+ unconvertible_text; event_line "World"]);
    done.
Defined.

(** ** A delta content that converts to no string *)

(** X17: an event whose delta content is an object with an own property
    [toString] (or an array that holds one) cannot be compared with the
    newline nor appended: the conversion throws a TypeError, which the catch
    of the chunk logs; the conversation is left as it was, whether the response
    turn was empty or not, and nothing escapes. *)
Theorem unconvertible_content_is_swallowed (env : Env) (n : nat) (line : string)
    (data : json) (fields : list (string * json)) (w : json) (s : State) :
  split_newline line = [line] →
  line ≠ EmptyString → line ≠ sentinel →
  JSON_parse env (replace_data_prefix line) = Some data →
  (delta_content data = Normal (Some (JObj fields))
   ∨ delta_content data = Normal (Some (JArr [JObj fields]))) →
  assoc "toString" fields = Some w →
  let o := process_chunk env n line s in
  classify env line = Malformed TypeError
  ∧ messages (final o) = messages s
  ∧ logged_errors (events o) = [TypeError]
  ∧ completion o = Normal tt.
Proof.
  intros Hsplit Hne Hns Hparse Hdelta Hown. cbn zeta.
  assert (classify env line = Malformed TypeError) as Hkind.
  { rewrite (classify_parsed env line data Hne Hns Hparse).
    destruct Hdelta as [-> | ->]; cbn; by rewrite Hown. }
  split; [done|].
  rewrite process_chunk_messages, process_chunk_errors, process_chunk_completion, Hsplit.
  simpl. rewrite Hkind. by rewrite with_content_same.
Qed.

Lemma unconvertible_content_is_swallowed_witness :
  let env := conversion_env None in
  let line := "data: " +:+ unconvertible_text in
  let s := sample_state [user_says "Hi"; {| role := "assistant"; content := "x" |}] in
  let s' := sample_state [user_says "Hi"; {| role := "assistant"; content := EmptyString |}] in
  split_newline line = [line]
  ∧ JSON_parse env (replace_data_prefix line) = Some unconvertible_json
  ∧ delta_content unconvertible_json = Normal (Some (JObj [("toString", JNum "1")]))
  ∧ messages (final (process_chunk env 0 line s')) = messages s'
  ∧ let o := process_chunk env 0 line s in
    classify env line = Malformed TypeError
    ∧ messages (final o) = messages s
    ∧ logged_errors (events o) = [TypeError]
    ∧ completion o = Normal tt.
Proof.
  cbn zeta. split; [done|]. split; [done|]. split; [done|]. split; [by vm_compute|].
  apply (unconvertible_content_is_swallowed (conversion_env None) 0
           ("data: " +:+ unconvertible_text) unconvertible_json
           [("toString", JNum "1")] (JNum "1")
           (sample_state [user_says "Hi"; {| role := "assistant"; content := "x" |}]));
    [done | done | done | done | by left | done].
Defined.
